(** * TrueConnect: the follow analyzer and the three-column report renderer

    A shallow embedding of [src/main.py]:
    - [_extract_usernames] and [analyze_instagram_data] over decoded JSON
      documents, with Python's exceptions as an error monad;
    - [draw_list_in_columns] over an explicit state of the page-based
      document writer, with a log of what has been drawn: first over the
      writer's cursor and drawing primitives, then, in [Paged], with the
      page break that the writer's [cell] performs on its own;
    - [get_path_from_user] over the lines of the console. *)

From Stdlib Require Import Ascii String QArith.
From stdpp Require Import gmap strings list sorting pretty.

#[local] Set Warnings "-clear-no-such-hyp".

(** ** Python values *)

(** A Python [str] is a sequence of Unicode code points. *)
Abbreviation str := (list N).

(** A literal of the source, all of whose characters are ASCII. *)
Definition lit (s : string) : str :=
  N_of_ascii <$> list_ascii_of_string s.

(** What [json.load] returns. A number literal with a fraction or an exponent
    decodes to a float; floats are left out of this model. A [dict] is kept as
    its items in insertion order, its keys pairwise distinct. *)
#[warnings="-register-all"]
Inductive json :=
  | JNull
  | JBool (b : bool)
  | JInt (z : Z)
  | JStr (s : str)
  | JList (l : list json)
  | JDict (items : list (str * json)).

(** The exceptions that the analyzer can meet. [OSError] stands for what
    [open] raises on a path that exists and cannot be read
    ([PermissionError], [IsADirectoryError]); [JSONDecodeError],
    [UnicodeDecodeError] and [RecursionError] are what [json.load] raises.
    In Python [JSONDecodeError] and [UnicodeDecodeError] are subclasses of
    [ValueError]; the constructors are the classes themselves. *)
Inductive exn :=
  | KeyError
  | IndexError
  | TypeError
  | AttributeError
  | FileNotFoundError
  | OSError
  | JSONDecodeError
  | UnicodeDecodeError
  | RecursionError
  | ValueError.

#[global] Instance exn_eq_dec : EqDecision exn.
Proof. solve_decision. Defined.

Inductive result (A : Type) :=
  | Ok (a : A)
  | Raise (e : exn).
Arguments Ok {A} a.
Arguments Raise {A} e.

#[global] Instance result_ret : MRet result := λ A, Ok.

#[global] Instance result_bind : MBind result := λ A B k r,
  match r with
  | Ok a => k a
  | Raise e => Raise e
  end.

(** [d[k]] and [d.get(k, default)] on the items of a dict. *)
Fixpoint dict_lookup (items : list (str * json)) (k : str) : option json :=
  match items with
  | [] => None
  | (k', v) :: rest => if decide (k' = k) then Some v else dict_lookup rest k
  end.

(** [v[k]] for a string [k]: only a dict can be subscripted by a string. *)
Definition getitem_str (v : json) (k : str) : result json :=
  match v with
  | JDict items =>
      match dict_lookup items k with
      | Some x => Ok x
      | None => Raise KeyError
      end
  | _ => Raise TypeError
  end.

(** [v[i]] for an integer [i >= 0]. The keys of a decoded dict are strings, so
    an integer is never among them. *)
Definition getitem_int (v : json) (i : nat) : result json :=
  match v with
  | JList l =>
      match l !! i with
      | Some x => Ok x
      | None => Raise IndexError
      end
  | JStr s =>
      match s !! i with
      | Some c => Ok (JStr [c])
      | None => Raise IndexError
      end
  | JDict _ => Raise KeyError
  | JNull | JBool _ | JInt _ => Raise TypeError
  end.

(** [data.get(key, dflt)]: a method of dicts only. *)
Definition dict_get (data : json) (k : str) (dflt : json) : result json :=
  match data with
  | JDict items => Ok (default dflt (dict_lookup items k))
  | _ => Raise AttributeError
  end.

(** ** Sets of usernames *)

(** What a Python set holds is decided by [hash] and [==]: [True] and [1]
    (and [False] and [0]) are one element, lists and dicts are unhashable. An
    element is kept as the class of its equal values. *)
Inductive hashable :=
  | HNone
  | HInt (z : Z)
  | HStr (s : str).

#[global] Instance hashable_eq_dec : EqDecision hashable.
Proof. solve_decision. Defined.

#[global] Instance hashable_countable : Countable hashable.
Proof.
  refine (inj_countable'
    (λ a, match a with
          | HNone => inl ()
          | HInt z => inr (inl z)
          | HStr s => inr (inr s)
          end)
    (λ c, match c with
          | inl _ => HNone
          | inr (inl z) => HInt z
          | inr (inr s) => HStr s
          end) _).
  by intros [].
Defined.

Definition hash_key (v : json) : option hashable :=
  match v with
  | JNull => Some HNone
  | JBool b => Some (HInt (if b then 1 else 0)%Z)
  | JInt z => Some (HInt z)
  | JStr s => Some (HStr s)
  | JList _ | JDict _ => None
  end.

(** [usernames.add(v)] *)
Definition set_add (usernames : gset hashable) (v : json)
  : result (gset hashable) :=
  match hash_key v with
  | Some a => Ok ({[a]} ∪ usernames)
  | None => Raise TypeError
  end.

(** ** [_extract_usernames] *)

(** [for item in items_list]: what the loop iterates over. *)
Definition iter (v : json) : result (list json) :=
  match v with
  | JList l => Ok l
  | JDict items => Ok ((λ kv, JStr kv.1) <$> items)
  | JStr s => Ok ((λ c, JStr [c]) <$> s)
  | JNull | JBool _ | JInt _ => Raise TypeError
  end.

(** [if key]: [None] and the empty string are false. *)
Definition truthy (key : option str) : bool :=
  match key with
  | Some (_ :: _) => true
  | _ => false
  end.

(** [item["string_list_data"][0]["value"]] *)
Definition username_of (item : json) : result json :=
  a ← getitem_str item (lit "string_list_data") ;
  b ← getitem_int a 0%nat ;
  getitem_str b (lit "value").

(** The body of the loop: the [try] block and its [except] clause. *)
Definition extract_item (usernames : gset hashable) (item : json)
  : result (gset hashable) :=
  match (username ← username_of item ; set_add usernames username) with
  | Raise KeyError | Raise IndexError => Ok usernames
  | r => r
  end.

Fixpoint extract_loop (usernames : gset hashable) (items : list json)
  : result (gset hashable) :=
  match items with
  | [] => Ok usernames
  | item :: rest =>
      usernames' ← extract_item usernames item ;
      extract_loop usernames' rest
  end.

Definition _extract_usernames (data : json) (key : option str)
  : result (gset hashable) :=
  items_list ← (if truthy key
                then dict_get data (default [] key) (JList [])
                else Ok data) ;
  items ← iter items_list ;
  extract_loop ∅ items.

(** ** [analyze_instagram_data] *)

(** The text of a file, as far as [json.load] tells texts apart: bytes that
    are not UTF-8, text that is not JSON, a document nested deeper than the
    interpreter recurses, or the serialization of a document. *)
Inductive text :=
  | NotUtf8
  | Garbage
  | TooDeep
  | Encodes (doc : json).

(** What a path leads to: no file, a path with a NUL character in it (which
    [open] refuses), something that cannot be read, or a file with its
    text. *)
Inductive file :=
  | NoSuchFile
  | InvalidPath
  | Unreadable
  | Contents (t : text).

Definition filesystem := str → file.

(** [open(path, "r", encoding="utf-8")] *)
Definition open (fs : filesystem) (path : str) : result text :=
  match fs path with
  | NoSuchFile => Raise FileNotFoundError
  | InvalidPath => Raise ValueError
  | Unreadable => Raise OSError
  | Contents t => Ok t
  end.

Definition json_load (t : text) : result json :=
  match t with
  | NotUtf8 => Raise UnicodeDecodeError
  | Garbage => Raise JSONDecodeError
  | TooDeep => Raise RecursionError
  | Encodes doc => Ok doc
  end.

Definition relationships_following : str := lit "relationships_following".

Definition analyze_instagram_data (fs : filesystem)
    (followers_file following_file : str)
  : result (gset hashable * gset hashable) :=
  match (f ← open fs followers_file ;
         followers_data ← json_load f ;
         g ← open fs following_file ;
         following_data ← json_load g ;
         Ok (followers_data, following_data)) with
  | Raise FileNotFoundError => Raise FileNotFoundError
  | Raise JSONDecodeError => Raise ValueError
  | Raise e => Raise e
  | Ok (followers_data, following_data) =>
      followers ← _extract_usernames followers_data None ;
      following ← _extract_usernames following_data
                    (Some relationships_following) ;
      let not_following_back := following ∖ followers in
      let fans := followers ∖ following in
      Ok (not_following_back, fans)
  end.

(** ** The document writer *)

(** Coordinates are floating-point numbers in the source. The layout uses
    only the operations below, and the model is parametric in them: whatever
    is proved holds for every interpretation, rounding included. [of_int] is
    the conversion that Python applies to an [int] operand. *)
Class Arith (F : Type) := {
  of_int : Z → F;
  fadd : F → F → F;
  fsub : F → F → F;
  fmul : F → F → F;
  fdiv : F → F → F;
  fgt : F → F → bool;
}.

(** The part of the [fpdf] writer that [draw_list_in_columns] drives: the page
    geometry, the cursor, the graphics state and, as [out], what has been
    drawn so far. [fpdf] is a library outside the repository; its primitives
    are modelled as the output sink of the spec describes them (add a page,
    set and get the cursor, draw text, draw an ellipse, geometry accessors).
    Coordinates are taken from the top left corner, as the program passes
    them. [cell] here is the library's [cell] from the point where it draws;
    the page-break test that the library runs before that is added in
    [Paged.cell], and the renderer over it is [Paged.draw_list_in_columns]. *)
Module FPDF.
Section writer.
Context {F : Type} `{!Arith F}.

Inductive drawn :=
  | Ellipse (pg : nat) (ex ey ew eh : F)
  | Cell (pg : nat) (cx cy cw ch : F) (txt : str).

Record t := mk {
  w : F; h : F;
  l_margin : F; r_margin : F; t_margin : F; b_margin : F;
  page : nat;
  x : F; y : F;
  fill_color : Z * Z * Z;
  font : string * string * Z;
  out : list drawn;
}.

Definition get_x (p : t) : F := x p.
Definition get_y (p : t) : F := y p.

Definition set_x (p : t) (x' : F) : t :=
  mk (w p) (h p) (l_margin p) (r_margin p) (t_margin p) (b_margin p)
     (page p) x' (y p) (fill_color p) (font p) (out p).

(** [set_y] also moves the cursor back to the left margin. *)
Definition set_y (p : t) (y' : F) : t :=
  mk (w p) (h p) (l_margin p) (r_margin p) (t_margin p) (b_margin p)
     (page p) (l_margin p) y' (fill_color p) (font p) (out p).

Definition set_xy (p : t) (x' y' : F) : t := set_x (set_y p y') x'.

Definition set_fill_color (p : t) (r g b : Z) : t :=
  mk (w p) (h p) (l_margin p) (r_margin p) (t_margin p) (b_margin p)
     (page p) (x p) (y p) (r, g, b) (font p) (out p).

Definition set_font (p : t) (family style : string) (size : Z) : t :=
  mk (w p) (h p) (l_margin p) (r_margin p) (t_margin p) (b_margin p)
     (page p) (x p) (y p) (fill_color p) (family, style, size) (out p).

Definition draw (p : t) (d : drawn) : t :=
  mk (w p) (h p) (l_margin p) (r_margin p) (t_margin p) (b_margin p)
     (page p) (x p) (y p) (fill_color p) (font p) (out p ++ [d]).

(** A filled ellipse; the cursor stays where it is. *)
Definition ellipse (p : t) (ex ey ew eh : F) : t :=
  draw p (Ellipse (page p) ex ey ew eh).

(** [cell(w, h, txt, 0, ln)]: the text goes at the cursor; then the cursor
    moves to the right of the cell ([ln = 0]), to the start of the next
    line ([ln = 1]) or below the cell ([ln = 2]). A width of 0 asks for a
    cell up to the right margin; the log keeps the argument. *)
Definition cell (p : t) (cw ch : F) (txt : str) (ln : Z) : t :=
  let p := draw p (Cell (page p) (x p) (y p) cw ch txt) in
  if decide (0 < ln)%Z then
    mk (w p) (h p) (l_margin p) (r_margin p) (t_margin p) (b_margin p)
       (page p) (if decide (ln = 1)%Z then l_margin p else x p)
       (fadd (y p) ch) (fill_color p) (font p) (out p)
  else
    set_x p (fadd (x p) cw).

(** A new page; the cursor goes to its top left margin. *)
Definition add_page (p : t) : t :=
  mk (w p) (h p) (l_margin p) (r_margin p) (t_margin p) (b_margin p)
     (S (page p)) (l_margin p) (t_margin p) (fill_color p) (font p) (out p).

End writer.

Arguments drawn : clear implicits.
Arguments t : clear implicits.
Arguments Ellipse {F} pg ex ey ew eh.
Arguments Cell {F} pg cx cy cw ch txt.
Arguments mk {F} w h l_margin r_margin t_margin b_margin page x y
fill_color font out.

End FPDF.

(** ** [draw_list_in_columns] *)

(** Python compares strings by code point, a proper prefix first. *)
Fixpoint str_leb (a b : str) : bool :=
  match a, b with
  | [], _ => true
  | _ :: _, [] => false
  | c :: a', d :: b' =>
      if (c <? d)%N then true
      else if (d <? c)%N then false
      else str_leb a' b'
  end.

Definition str_le : relation str := λ a b, str_leb a b = true.

#[global] Instance str_le_dec : RelDecision str_le.
Proof. intros a b. unfold str_le. apply _. Defined.

(** [sorted(...)]: the elements of a set are pairwise distinct, so every
    sorting algorithm returns the same list. *)
Definition sorted (l : list str) : list str := merge_sort str_le l.

(** [s.encode('latin-1', 'replace')]: one byte per character, [?] for a
    character beyond U+00FF. *)
Definition encode_latin1_replace (s : str) : list N :=
  (λ c, if (c <=? 255)%N then c else 63%N) <$> s.

(** [b.decode('latin-1')]: every byte is the character of the same number. *)
Definition decode_latin1 (b : list N) : str := b.

Definition sanitize (s : str) : str :=
  decode_latin1 (encode_latin1_replace s).

(** [str(n)] for a length. *)
Definition str_of_nat (n : nat) : str := lit (pretty n).

Definition line_height : Z := 7.
Definition num_cols : nat := 3.

Section Renderer.
Context {F : Type} `{!Arith F}.

(** The variables that the loop updates: the writer, [current_y] and
    [page_item_index]. *)
Definition loop_state : Type := FPDF.t F * F * nat.

(** The first half of the loop body: the grid cell of the next entry, after
    a page break where the row does not fit. *)
Definition next_cell (st : loop_state) : loop_state * nat * nat :=
  let '(pdf_instance, current_y, page_item_index) := st in
  let col_index := page_item_index mod num_cols in
  let row_index := page_item_index / num_cols in
  if fgt (fadd current_y (of_int (Z.of_nat row_index * line_height)%Z))
         (fsub (fsub (FPDF.h pdf_instance) (FPDF.b_margin pdf_instance))
               (of_int line_height))
  then
    let pdf_instance := FPDF.add_page pdf_instance in
    let current_y := FPDF.t_margin pdf_instance in
    let page_item_index := 0%nat in
    let col_index := page_item_index mod num_cols in
    let row_index := page_item_index / num_cols in
    (pdf_instance, current_y, page_item_index, col_index, row_index)
  else
    (pdf_instance, current_y, page_item_index, col_index, row_index).

Definition safe_user (user : str) : str :=
  sanitize (lit "- " ++ user).

(** The body of [for i, user in enumerate(sorted_users)]. *)
Definition loop_body (col_width : F) (st : loop_state) (user : str)
  : loop_state :=
  let '(pdf_instance, current_y, page_item_index, col_index, row_index) :=
    next_cell st in
  let pdf_instance :=
    FPDF.set_xy pdf_instance
      (fadd (FPDF.l_margin pdf_instance)
            (fmul (of_int (Z.of_nat col_index)) col_width))
      (fadd current_y (of_int (Z.of_nat row_index * line_height)%Z)) in
  let pdf_instance :=
    FPDF.cell pdf_instance col_width (of_int line_height)
              (safe_user user) 0 in
  (pdf_instance, current_y, (page_item_index + 1)%nat).

Definition title_text (title : str) (user_list : gset str) : str :=
  title ++ lit " (" ++ str_of_nat (size user_list) ++ lit ")".

(** [page_width] and [col_width], a third of the width between the
    margins. *)
Definition usable_width (pdf_instance : FPDF.t F) : F :=
  fsub (fsub (FPDF.w pdf_instance) (FPDF.l_margin pdf_instance))
       (FPDF.r_margin pdf_instance).

Definition column_width (pdf_instance : FPDF.t F) : F :=
  fdiv (usable_width pdf_instance) (of_int (Z.of_nat num_cols)).

(** The first statements of [draw_list_in_columns]: the coloured marker
    and the title line with the number of entries. *)
Definition draw_title (pdf_instance : FPDF.t F) (title : str)
    (user_list : gset str) (color : Z * Z * Z) : FPDF.t F :=
  let pdf_instance :=
    FPDF.set_fill_color pdf_instance color.1.1 color.1.2 color.2 in
  let pdf_instance :=
    FPDF.ellipse pdf_instance (FPDF.get_x pdf_instance)
      (fadd (FPDF.get_y pdf_instance) (fdiv (of_int 7) (of_int 2)))
      (of_int 3) (of_int 3) in
  let pdf_instance :=
    FPDF.set_x pdf_instance (fadd (FPDF.get_x pdf_instance) (of_int 5)) in
  let pdf_instance := FPDF.set_font pdf_instance "DejaVu" "B" 12 in
  let pdf_instance :=
    FPDF.cell pdf_instance (of_int 0) (of_int 10)
              (title_text title user_list) 1 in
  FPDF.set_font pdf_instance "DejaVu" "" 10.

Definition draw_list_in_columns (pdf_instance : FPDF.t F) (title : str)
    (user_list : gset str) (color : Z * Z * Z) : FPDF.t F :=
  let pdf_instance := draw_title pdf_instance title user_list color in
  if decide (user_list = ∅) then
    FPDF.cell pdf_instance (of_int 0) (of_int 7) (lit "  None.") 1
  else
    let col_width := column_width pdf_instance in
    let start_y := FPDF.get_y pdf_instance in
    let current_y := start_y in
    let page_item_index := 0%nat in
    let sorted_users := sorted (elements user_list) in
    let '(pdf_instance, _, _) :=
      foldl (loop_body col_width)
            (pdf_instance, current_y, page_item_index) sorted_users in
    FPDF.set_y pdf_instance
      (fadd (FPDF.get_y pdf_instance) (of_int (line_height * 2)%Z)).

End Renderer.

(** Reading back what a call has drawn: the texts of the cells that [after]
    has and [before] has not. *)
Definition cell_text {F : Type} (d : FPDF.drawn F) : option str :=
  match d with
  | FPDF.Cell _ _ _ _ _ txt => Some txt
  | FPDF.Ellipse _ _ _ _ _ => None
  end.

Definition placed_texts {F : Type} (before after : FPDF.t F) : list str :=
  omap cell_text (drop (length (FPDF.out before)) (FPDF.out after)).

(** Exact rational arithmetic, to run the renderer on concrete pages. *)
#[global] Instance Q_arith : Arith Q := {|
  of_int z := inject_Z z;
  fadd a b := Qred (a + b)%Q;
  fsub a b := Qred (a - b)%Q;
  fmul a b := Qred (a * b)%Q;
  fdiv a b := Qred (a / b)%Q;
  fgt a b := negb (Qle_bool a b);
|}.

(** ** The shape of a record, in the spec's words *)

(** A record is an object; when it has [string_list_data], that is a list;
    when the list is not empty, its first element is an object; when that has
    [value], it is a string. *)
Definition record_shaped (item : json) : bool :=
  match item with
  | JDict fields =>
      match dict_lookup fields (lit "string_list_data") with
      | None | Some (JList []) => true
      | Some (JList (JDict entry :: _)) =>
          match dict_lookup entry (lit "value") with
          | None | Some (JStr _) => true
          | Some _ => false
          end
      | Some _ => false
      end
  | _ => false
  end.

(** The username of a record: the string at
    [string_list_data], first element, [value]; none where a key is missing
    or the list is empty. *)
Definition record_username (item : json) : option str :=
  match item with
  | JDict fields =>
      match dict_lookup fields (lit "string_list_data") with
      | Some (JList (JDict entry :: _)) =>
          match dict_lookup entry (lit "value") with
          | Some (JStr s) => Some s
          | _ => None
          end
      | _ => None
      end
  | _ => None
  end.

Definition usernames_of (records : list json) : gset hashable :=
  list_to_set (HStr <$> omap record_username records).

(** A well-formed record with one username, for the examples. *)
Definition record (u : string) : json :=
  JDict [(lit "title", JStr []);
         (lit "string_list_data",
          JList [JDict [(lit "href", JStr (lit "https://www.instagram.com/"));
                        (lit "value", JStr (lit u));
                        (lit "timestamp", JInt 1700000000)]])].

(** A file system with the two exports and nothing else. *)
Definition two_files (followers following : file) : filesystem :=
  λ path,
    if decide (path = lit "followers_1.json") then followers
    else if decide (path = lit "following.json") then following
    else NoSuchFile.

Definition decoded (doc : json) : file := Contents (Encodes doc).


(** A page of 210 by 297 units with margins of 10 (20 at the bottom), the
    cursor at the left margin and at height [y0] of page 1, nothing drawn. *)
Definition a4 (y0 : Q) : FPDF.t Q :=
  FPDF.mk 210%Q 297%Q 10%Q 10%Q 10%Q 20%Q 1 10%Q y0
          (0, 0, 0)%Z ("DejaVu", "B", 20%Z) [].

Definition names (l : list string) : gset str := list_to_set (lit <$> l).

Definition red : Z * Z * Z := (220, 53, 69)%Z.

(** What [open] and [json.load] make of one file, and what the two [except]
    clauses make of an exception of the [try] block. *)
Definition read_json (f : file) : result json :=
  match f with
  | NoSuchFile => Raise FileNotFoundError
  | InvalidPath => Raise ValueError
  | Unreadable => Raise OSError
  | Contents t => json_load t
  end.

Definition handled (e : exn) : exn :=
  match e with
  | JSONDecodeError => ValueError
  | e => e
  end.

(** ** Auxiliary definitions for the further properties *)

(** What one item does in the loop of [_extract_usernames], told apart from
    the accumulated set: whether it stops the loop with an exception that the
    [except] clause does not catch, and the element it contributes. *)
Definition aborts (item : json) : bool :=
  match extract_item ∅ item with
  | Raise _ => true
  | Ok _ => false
  end.

Definition key_of (item : json) : option hashable :=
  match username_of item with
  | Ok v => hash_key v
  | Raise _ => None
  end.

(** ** [get_path_from_user] *)

(** The console: the lines still to be read from standard input, and what
    has been written to standard output. *)
Record console := Console {
  stdin : list str;
  stdout : list str;
}.

(** [print(s)]: the text and a newline. *)
Definition print (c : console) (s : str) : console :=
  Console (stdin c) (stdout c ++ [s ++ [10%N]]).

(** [input(prompt)]: the prompt is written, then a line is read; no line
    left is [EOFError], here [None]. *)
Definition input (c : console) (prompt : str) : option str * console :=
  let c := Console (stdin c) (stdout c ++ [prompt]) in
  match stdin c with
  | [] => (None, c)
  | line :: rest => (Some line, Console rest (stdout c))
  end.

(** [str.isspace] on one character, the table of CPython. *)
Definition is_space (c : N) : bool :=
  ((9 <=? c) && (c <=? 13) || (28 <=? c) && (c <=? 32) ||
   (c =? 133) || (c =? 160) || (c =? 5760) ||
   (8192 <=? c) && (c <=? 8202) ||
   (c =? 8232) || (c =? 8233) || (c =? 8239) || (c =? 8287) ||
   (c =? 12288))%N.

(** The characters of the second [strip]: the apostrophe and the double
    quote. *)
Definition is_quote (c : N) : bool := ((c =? 39) || (c =? 34))%N.

Fixpoint lstrip (f : N → bool) (s : str) : str :=
  match s with
  | [] => []
  | c :: s' => if f c then lstrip f s' else s
  end.

Definition rstrip (f : N → bool) (s : str) : str :=
  reverse (lstrip f (reverse s)).

(** [s.strip()] with [is_space], [s.strip(chars)] with the test for
    [chars]: the characters that pass the test are taken off both ends. *)
Definition strip (f : N → bool) (s : str) : str := rstrip f (lstrip f s).

Definition get_path_from_user (c : console) (prompt : str)
  : option str * console :=
  let c := print c prompt in
  match input c (lit "> ") with
  | (None, c) => (None, c)
  | (Some line, c) =>
      let path := strip is_space line in
      (Some (strip is_quote path), c)
  end.

(** ** The two lists of [create_pdf_report] *)

(** [ln(h)]: to the left margin, [h] further down. *)
Definition ln {F : Type} `{!Arith F} (p : FPDF.t F) (h : F) : FPDF.t F :=
  FPDF.set_y p (fadd (FPDF.y p) h).

Definition green : Z * Z * Z := (40, 167, 69)%Z.

(** The geometry of the page: width, height and the four margins. *)
Definition geometry {F : Type} (p : FPDF.t F) : F * F * F * F * F * F :=
  (FPDF.w p, FPDF.h p, FPDF.l_margin p, FPDF.r_margin p, FPDF.t_margin p,
   FPDF.b_margin p).

(** The break test of line 123 for a row of the grid that starts at
    [current_y]. *)
Definition row_exceeds {F : Type} `{!Arith F} (p : FPDF.t F)
    (current_y : F) (row_index : nat) : bool :=
  fgt (fadd current_y (of_int (Z.of_nat row_index * line_height)))
      (fsub (fsub (FPDF.h p) (FPDF.b_margin p)) (of_int line_height)).

(** The cell of an entry at a column and a row of the grid that starts at
    [current_y]. *)
Definition grid_cell {F : Type} `{!Arith F} (p : FPDF.t F) (pg : nat)
    (cw current_y : F) (col_index row_index : nat) (user : str)
  : FPDF.drawn F :=
  FPDF.Cell pg
    (fadd (FPDF.l_margin p) (fmul (of_int (Z.of_nat col_index)) cw))
    (fadd current_y (of_int (Z.of_nat row_index * line_height)))
    cw (of_int line_height) (safe_user user).

(** The usernames that the records of a sequence carry, as they stand in the
    records. *)
Definition carried_by (records : list json) (u : str) : Prop :=
  ∃ item, item ∈ records ∧ record_username item = Some u.

(** ** The writer's automatic page break *)

(** The test that the library's [cell] runs before it draws: a cell of
    height [ch] at the cursor would pass the bottom margin. *)
Definition will_page_break {F : Type} `{!Arith F} (p : FPDF.t F) (ch : F)
  : bool :=
  fgt (fadd (FPDF.y p) ch) (fsub (FPDF.h p) (FPDF.b_margin p)).

(** The renderer over the writer as the library runs it, page break
    included. The statements are those of [draw_list_in_columns], with
    [Paged.cell] for [FPDF.cell]. *)
Module Paged.
Section renderer.
Context {F : Type} `{!Arith F}.

(** [cell]: where the test succeeds a page is added first, the abscissa
    being kept; then the cell is drawn and the cursor moved. *)
Definition cell (p : FPDF.t F) (cw ch : F) (txt : str) (ln : Z)
  : FPDF.t F :=
  let p :=
    if will_page_break p ch
    then FPDF.set_x (FPDF.add_page p) (FPDF.x p)
    else p in
  FPDF.cell p cw ch txt ln.

Definition loop_body (col_width : F) (st : loop_state) (user : str)
  : loop_state :=
  let '(pdf_instance, current_y, page_item_index, col_index, row_index) :=
    next_cell st in
  let pdf_instance :=
    FPDF.set_xy pdf_instance
      (fadd (FPDF.l_margin pdf_instance)
            (fmul (of_int (Z.of_nat col_index)) col_width))
      (fadd current_y (of_int (Z.of_nat row_index * line_height)%Z)) in
  let pdf_instance :=
    cell pdf_instance col_width (of_int line_height) (safe_user user) 0 in
  (pdf_instance, current_y, (page_item_index + 1)%nat).

Definition draw_title (pdf_instance : FPDF.t F) (title : str)
    (user_list : gset str) (color : Z * Z * Z) : FPDF.t F :=
  let pdf_instance :=
    FPDF.set_fill_color pdf_instance color.1.1 color.1.2 color.2 in
  let pdf_instance :=
    FPDF.ellipse pdf_instance (FPDF.get_x pdf_instance)
      (fadd (FPDF.get_y pdf_instance) (fdiv (of_int 7) (of_int 2)))
      (of_int 3) (of_int 3) in
  let pdf_instance :=
    FPDF.set_x pdf_instance (fadd (FPDF.get_x pdf_instance) (of_int 5)) in
  let pdf_instance := FPDF.set_font pdf_instance "DejaVu" "B" 12 in
  let pdf_instance :=
    cell pdf_instance (of_int 0) (of_int 10)
         (title_text title user_list) 1 in
  FPDF.set_font pdf_instance "DejaVu" "" 10.

Definition draw_list_in_columns (pdf_instance : FPDF.t F) (title : str)
    (user_list : gset str) (color : Z * Z * Z) : FPDF.t F :=
  let pdf_instance := draw_title pdf_instance title user_list color in
  if decide (user_list = ∅) then
    cell pdf_instance (of_int 0) (of_int 7) (lit "  None.") 1
  else
    let col_width := column_width pdf_instance in
    let start_y := FPDF.get_y pdf_instance in
    let current_y := start_y in
    let page_item_index := 0%nat in
    let sorted_users := sorted (elements user_list) in
    let '(pdf_instance, _, _) :=
      foldl (loop_body col_width)
            (pdf_instance, current_y, page_item_index) sorted_users in
    FPDF.set_y pdf_instance
      (fadd (FPDF.get_y pdf_instance) (of_int (line_height * 2)%Z)).

(** Lines 137 to 139 of [create_pdf_report]: the two titled lists, 8 units
    apart. *)
Definition draw_both_lists (pdf : FPDF.t F)
    (not_following_back fans : gset str) : FPDF.t F :=
  let pdf :=
    draw_list_in_columns pdf
      (lit "People You Follow Who Don't Follow Back") not_following_back
      red in
  let pdf := ln pdf (of_int 8) in
  draw_list_in_columns pdf (lit "People You Don't Follow Them Back") fans
    green.

End renderer.
End Paged.

(** * Properties of the analyzer *)

Section Extraction.

Lemma bind_ok {A B} (r : result A) (k : A → result B) (b : B) :
  r ≫= k = Ok b ↔ ∃ a, r = Ok a ∧ k a = Ok b.
Proof.
  destruct r as [a|e]; cbn; split.
  - eauto.
  - by intros (a' & [= ->] & ?).
  - done.
  - by intros (? & ? & ?).
Qed.

Lemma bind_raise {A B} (r : result A) (k : A → result B) (e : exn) :
  r ≫= k = Raise e ↔ r = Raise e ∨ ∃ a, r = Ok a ∧ k a = Raise e.
Proof.
  destruct r as [a|e']; cbn; split.
  - eauto.
  - intros [?|(a' & [= ->] & ?)]; done.
  - intros [= ->]. by left.
  - intros [[= ->]|(? & ? & ?)]; done.
Qed.

(** What one record does to the set: a shaped record adds its username,
    or nothing when it has none. *)
Lemma extract_item_shaped usernames item :
  record_shaped item = true →
  extract_item usernames item =
    Ok (match record_username item with
        | Some s => {[HStr s]} ∪ usernames
        | None => usernames
        end).
Proof.
  unfold extract_item, username_of, record_shaped, record_username.
  destruct item as [| | | |?|fields]; [discriminate..|].
  cbn. destruct (dict_lookup fields _) as [[| | | |[|[| | | | |entry] ?]|]|];
    cbn; try discriminate; try reflexivity.
  intros Hvalue. by destruct (dict_lookup entry _) as [[]|].
Qed.

Lemma extract_loop_shaped usernames items :
  Forall (λ item, record_shaped item = true) items →
  extract_loop usernames items = Ok (usernames_of items ∪ usernames).
Proof.
  unfold usernames_of. intros Hshaped. revert usernames.
  induction Hshaped as [|item items Hitem _ IH]; intros usernames; simpl.
  - f_equal. set_solver.
  - rewrite (extract_item_shaped _ _ Hitem). simpl. rewrite IH. f_equal.
    destruct (record_username item); simpl; set_solver.
Qed.

Lemma extract_usernames_shaped records :
  Forall (λ item, record_shaped item = true) records →
  _extract_usernames (JList records) None = Ok (usernames_of records).
Proof.
  intros Hshaped. unfold _extract_usernames. cbn.
  rewrite extract_loop_shaped by done. f_equal. set_solver.
Qed.

(** The exceptions of the single steps. *)
Lemma getitem_str_raises v k e :
  getitem_str v k = Raise e → e = KeyError ∨ e = TypeError.
Proof.
  destruct v as [| | | | |fields]; simpl; try (intros [= <-]; by right).
  destruct (dict_lookup fields k); [done|]. intros [= <-]. by left.
Qed.

Lemma getitem_int_raises v i e :
  getitem_int v i = Raise e →
  e = KeyError ∨ e = IndexError ∨ e = TypeError.
Proof.
  destruct v as [| | |s|l|]; simpl; try (intros [= <-]; auto).
  - destruct (s !! i); [done|]. intros [= <-]. auto.
  - destruct (l !! i); [done|]. intros [= <-]. auto.
Qed.

Lemma set_add_raises usernames v e :
  set_add usernames v = Raise e → e = TypeError.
Proof. unfold set_add. destruct (hash_key v); [done|]. by intros [= <-]. Qed.

Lemma username_of_raises item e :
  username_of item = Raise e →
  e = KeyError ∨ e = IndexError ∨ e = TypeError.
Proof.
  unfold username_of.
  intros [H1|(a & _ & [H2|(b & _ & H3)]%bind_raise)]%bind_raise.
  - apply getitem_str_raises in H1. tauto.
  - by apply getitem_int_raises in H2.
  - apply getitem_str_raises in H3. tauto.
Qed.

(** The only exception that leaves the loop is [TypeError]. *)
Lemma extract_item_raises usernames item e :
  extract_item usernames item = Raise e → e = TypeError.
Proof.
  unfold extract_item.
  destruct (username_of item ≫= _) as [?|e'] eqn:Hrun; [done|].
  apply bind_raise in Hrun as [Hrun|(v & _ & Hrun)].
  - apply username_of_raises in Hrun as [-> | [-> | ->]]; congruence.
  - apply set_add_raises in Hrun as ->. congruence.
Qed.

Lemma extract_loop_raises usernames items e :
  extract_loop usernames items = Raise e → e = TypeError.
Proof.
  revert usernames. induction items as [|item items IH]; intros usernames.
  - done.
  - simpl. intros [Hitem|(usernames' & _ & Hrest)]%bind_raise.
    + by eapply extract_item_raises.
    + by eapply IH.
Qed.

Lemma extract_usernames_raises data key e :
  _extract_usernames data key = Raise e →
  e = TypeError ∨ e = AttributeError.
Proof.
  unfold _extract_usernames.
  intros [Hget|(items_list & _ & Hrun)]%bind_raise.
  - destruct (truthy key); [|done].
    destruct data; simpl in Hget; simplify_eq; auto.
  - apply bind_raise in Hrun as [Hiter|(items & _ & Hloop)].
    + destruct items_list; simpl in Hiter; simplify_eq; auto.
    + left. by eapply extract_loop_raises.
Qed.

End Extraction.

Section Analyzer.

Implicit Types (fs : filesystem) (followers_file following_file : str).
Implicit Types (followers following : gset hashable).

(** The following document is read through its [relationships_following]
    field. *)
Lemma extract_following_fields (fields : list (str * json)) :
  _extract_usernames (JDict fields) (Some relationships_following) =
    (items ← iter (default (JList [])
                     (dict_lookup fields relationships_following));
     extract_loop ∅ items).
Proof. reflexivity. Qed.

(** Once both files decode, the analyzer is the two extractions followed by
    the two differences. *)
Lemma analyze_decoded fs followers_file following_file
    followers_data following_data :
  fs followers_file = decoded followers_data →
  fs following_file = decoded following_data →
  analyze_instagram_data fs followers_file following_file =
    (followers ← _extract_usernames followers_data None;
     following ← _extract_usernames following_data
                   (Some relationships_following);
     Ok (following ∖ followers, followers ∖ following)).
Proof.
  intros Hfollowers Hfollowing. unfold analyze_instagram_data, open.
  by rewrite Hfollowers, Hfollowing.
Qed.

Lemma analyze_of_extracted fs followers_file following_file
    followers_data following_data followers following :
  fs followers_file = decoded followers_data →
  fs following_file = decoded following_data →
  _extract_usernames followers_data None = Ok followers →
  _extract_usernames following_data (Some relationships_following)
    = Ok following →
  analyze_instagram_data fs followers_file following_file
    = Ok (following ∖ followers, followers ∖ following).
Proof.
  intros Hp Hq Hfollowers Hfollowing.
  rewrite (analyze_decoded _ _ _ _ _ Hp Hq).
  apply bind_ok. exists followers. split; [done|].
  apply bind_ok. by exists following.
Qed.

Lemma analyze_load fs followers_file following_file :
  analyze_instagram_data fs followers_file following_file =
    match read_json (fs followers_file) with
    | Raise e => Raise (handled e)
    | Ok followers_data =>
        match read_json (fs following_file) with
        | Raise e => Raise (handled e)
        | Ok following_data =>
            followers ← _extract_usernames followers_data None;
            following ← _extract_usernames following_data
                          (Some relationships_following);
            Ok (following ∖ followers, followers ∖ following)
        end
    end.
Proof.
  unfold analyze_instagram_data, open.
  destruct (fs followers_file) as [| | |[| | |?]]; try reflexivity.
  destruct (fs following_file) as [| | |[| | |?]]; reflexivity.
Qed.

(** An exception of the [try] block leaves as one of five classes, never as
    one that the extraction raises. *)
Lemma read_json_raises (f : file) e :
  read_json f = Raise e →
  handled e ∈ [FileNotFoundError; ValueError; OSError; UnicodeDecodeError;
               RecursionError].
Proof.
  destruct f as [| | |[| | |?]]; cbn; intros [= <-]; cbn; set_solver.
Qed.

Lemma differences_raise followers_data following_data e :
  (followers ← _extract_usernames followers_data None;
   following ← _extract_usernames following_data
                 (Some relationships_following);
   Ok (following ∖ followers, followers ∖ following)) = Raise e →
  e = TypeError ∨ e = AttributeError.
Proof.
  intros [H1|(a & _ & [H2|(b & _ & ?)]%bind_raise)]%bind_raise.
  - by eapply extract_usernames_raises.
  - by eapply extract_usernames_raises.
  - done.
Qed.

End Analyzer.

(** * The claims about the analyzer *)

(** C3, as the spec states it, fails: not every pair of decoded documents
    gets a result. A followers document that is a number, or a following
    document that is a plain list, is decoded without complaint and then
    makes the analyzer raise, so that it returns no differences at all. *)
Lemma decoded_pair_without_result :
  analyze_instagram_data
    (two_files (decoded (JInt 7))
               (decoded (JDict [(relationships_following,
                                 JList [record "d"])])))
    (lit "followers_1.json") (lit "following.json")
  = Raise TypeError ∧
  analyze_instagram_data
    (two_files (decoded (JList [record "a"; record "b"; record "c"]))
               (decoded (JList [record "b"; record "c"; record "d"])))
    (lit "followers_1.json") (lit "following.json")
  = Raise AttributeError.
Proof. split; vm_compute; reflexivity. Qed.

(** C3, amended. For a followers document that is a sequence of records and
    a following document that is an object with a sequence of records under
    [relationships_following], the analyzer returns the two plain
    differences of the usernames that the records carry: an account is in
    [not_following_back] exactly when a following record carries it and no
    followers record does, in [fans] exactly when a followers record carries
    it and no following record does. The usernames are the strings of the
    records, compared character by character: nothing is normalized. *)
Theorem analyze_plain_differences (fs : filesystem)
    (followers_file following_file : str)
    (followers_records following_records : list json)
    (fields : list (str * json)) :
  Forall (λ item, record_shaped item = true) followers_records →
  Forall (λ item, record_shaped item = true) following_records →
  fs followers_file = decoded (JList followers_records) →
  fs following_file = decoded (JDict fields) →
  dict_lookup fields relationships_following
    = Some (JList following_records) →
  ∃ not_following_back fans,
    analyze_instagram_data fs followers_file following_file
      = Ok (not_following_back, fans) ∧
    (∀ v, v ∈ not_following_back ↔
          ∃ u, v = HStr u ∧ carried_by following_records u ∧
               ¬ carried_by followers_records u) ∧
    (∀ v, v ∈ fans ↔
          ∃ u, v = HStr u ∧ carried_by followers_records u ∧
               ¬ carried_by following_records u).
Proof.
  intros Hfollowers Hfollowing Hp Hq Hfield.
  assert (∀ records v,
            v ∈ usernames_of records ↔
            ∃ u, v = HStr u ∧ carried_by records u) as Hcarried.
  { intros records v. unfold usernames_of, carried_by.
    rewrite elem_of_list_to_set, list_elem_of_fmap.
    setoid_rewrite list_elem_of_omap. naive_solver. }
  exists (usernames_of following_records ∖ usernames_of followers_records),
    (usernames_of followers_records ∖ usernames_of following_records).
  split.
  - apply (analyze_of_extracted _ _ _ _ _ _ _ Hp Hq).
    + by apply extract_usernames_shaped.
    + rewrite extract_following_fields, Hfield.
      by apply (extract_usernames_shaped following_records).
  - split; intros v; rewrite elem_of_difference, !Hcarried.
    + split.
      * intros [(u & -> & Hin) Hout]. exists u. split_and!; [done..|].
        intros Hu. apply Hout. by exists u.
      * intros (u & -> & Hin & Hout). split; [by exists u|].
        intros (u' & [= <-] & Hu). by apply Hout.
    + split.
      * intros [(u & -> & Hin) Hout]. exists u. split_and!; [done..|].
        intros Hu. apply Hout. by exists u.
      * intros (u & -> & Hin & Hout). split; [by exists u|].
        intros (u' & [= <-] & Hu). by apply Hout.
Qed.

(** The scenario of the spec: followers a, b, c and following b, c, d give
    [not_following_back = {d}] and [fans = {a}]. *)
Lemma analyze_plain_differences_abc :
  let fs :=
    two_files
      (decoded (JList [record "a"; record "b"; record "c"]))
      (decoded (JDict [(relationships_following,
                        JList [record "b"; record "c"; record "d"])])) in
  analyze_instagram_data fs (lit "followers_1.json") (lit "following.json")
    = Ok ({[HStr (lit "d")]}, {[HStr (lit "a")]}) ∧
  ∃ not_following_back fans,
    analyze_instagram_data fs (lit "followers_1.json") (lit "following.json")
      = Ok (not_following_back, fans) ∧
    (∀ v, v ∈ not_following_back ↔
          ∃ u, v = HStr u ∧
               carried_by [record "b"; record "c"; record "d"] u ∧
               ¬ carried_by [record "a"; record "b"; record "c"] u) ∧
    (∀ v, v ∈ fans ↔
          ∃ u, v = HStr u ∧
               carried_by [record "a"; record "b"; record "c"] u ∧
               ¬ carried_by [record "b"; record "c"; record "d"] u).
Proof.
  intros fs. split; [vm_compute; reflexivity|].
  apply (analyze_plain_differences fs _ _
           [record "a"; record "b"; record "c"]
           [record "b"; record "c"; record "d"]
           [(relationships_following,
             JList [record "b"; record "c"; record "d"])]);
    try reflexivity; repeat constructor.
Defined.

(** Usernames that differ in case only are different usernames. *)
Example analyze_keeps_case :
  analyze_instagram_data
    (two_files
       (decoded (JList [record "Alice"]))
       (decoded (JDict [(relationships_following, JList [record "alice"])])))
    (lit "followers_1.json") (lit "following.json")
  = Ok ({[HStr (lit "alice")]}, {[HStr (lit "Alice")]}).
Proof. vm_compute. reflexivity. Qed.

(** C4. Over a sequence of records, the extraction returns the usernames of
    the records that have one at [string_list_data], first element, [value],
    and passes over the records where a key is missing or the list is empty:
    no exception leaves the loop and the rest of the batch is read. *)
Theorem extract_skips_incomplete_records (records : list json) :
  Forall (λ item, record_shaped item = true) records →
  _extract_usernames (JList records) None = Ok (usernames_of records) ∧
  ∀ u, HStr u ∈ usernames_of records ↔
       ∃ item, item ∈ records ∧ record_username item = Some u.
Proof.
  intros Hshaped. split.
  - by apply extract_usernames_shaped.
  - intros u. unfold usernames_of.
    rewrite elem_of_list_to_set, list_elem_of_fmap. split.
    + intros (s & [= <-] & (item & ? & ?)%list_elem_of_omap). eauto.
    + intros (item & ? & ?). exists u. split; [done|].
      apply list_elem_of_omap. eauto.
Qed.

(** One record without [string_list_data] between two complete records: the
    two usernames, and no exception. *)
Lemma extract_skips_incomplete_records_example :
  let records :=
    [record "alice"; JDict [(lit "title", JStr [])]; record "bob"] in
  Forall (λ item, record_shaped item = true) records ∧
  _extract_usernames (JList records) None
    = Ok {[HStr (lit "alice"); HStr (lit "bob")]}.
Proof.
  intros records.
  assert (Forall (λ item, record_shaped item = true) records) as Hshaped.
  { repeat constructor. }
  split; [exact Hshaped|].
  eapply eq_trans.
  - exact (proj1 (extract_skips_incomplete_records records Hshaped)).
  - vm_compute. reflexivity.
Defined.

(** C10, as stated, fails: that both documents decode and that the
    following object lacks the key does not keep the analyzer from raising,
    for the followers document may still stop the extraction. *)
Lemma followers_can_still_raise :
  analyze_instagram_data
    (two_files (decoded (JList [JNull])) (decoded (JDict [])))
    (lit "followers_1.json") (lit "following.json")
  = Raise TypeError.
Proof. vm_compute. reflexivity. Qed.

(** C10, amended. When the following document is an object without
    [relationships_following] and the extraction from the followers
    document returns a set, the analyzer raises nothing: the following set
    is empty, so [not_following_back] is empty and [fans] is the whole
    followers set. *)
Theorem analyze_without_following_key (fs : filesystem)
    (followers_file following_file : str) (followers_data : json)
    (fields : list (str * json)) (followers : gset hashable) :
  fs followers_file = decoded followers_data →
  fs following_file = decoded (JDict fields) →
  dict_lookup fields relationships_following = None →
  _extract_usernames followers_data None = Ok followers →
  analyze_instagram_data fs followers_file following_file
    = Ok (∅, followers).
Proof.
  intros Hp Hq Hkey Hfollowers.
  rewrite (analyze_of_extracted _ _ _ _ _ followers ∅ Hp Hq Hfollowers).
  - f_equal. f_equal; set_solver.
  - by rewrite extract_following_fields, Hkey.
Qed.

Lemma analyze_without_following_key_example :
  analyze_instagram_data
    (two_files
       (decoded (JList [record "a"; record "b"]))
       (decoded (JDict [(lit "following", JList [record "c"])])))
    (lit "followers_1.json") (lit "following.json")
  = Ok (∅, {[HStr (lit "a"); HStr (lit "b")]}).
Proof.
  apply (analyze_without_following_key _ _ _
           (JList [record "a"; record "b"])
           [(lit "following", JList [record "c"])]);
    vm_compute; reflexivity.
Defined.

(** C8, as the spec states it, fails: the analyzer reads the followers
    document as a plain sequence only and the following document as an object
    only. A following document that is a plain sequence of records raises
    [AttributeError] where the same records under [relationships_following]
    are accepted, and a followers document that holds its records under a
    field raises [TypeError]. *)
Lemma one_shape_per_document :
  analyze_instagram_data
    (two_files (decoded (JList [record "a"]))
               (decoded (JList [record "d"])))
    (lit "followers_1.json") (lit "following.json")
  = Raise AttributeError ∧
  analyze_instagram_data
    (two_files (decoded (JList [record "a"]))
               (decoded (JDict [(relationships_following,
                                 JList [record "d"])])))
    (lit "followers_1.json") (lit "following.json")
  = Ok ({[HStr (lit "d")]}, {[HStr (lit "a")]}) ∧
  analyze_instagram_data
    (two_files (decoded (JDict [(lit "relationships_followers",
                                 JList [record "a"])]))
               (decoded (JDict [(relationships_following,
                                 JList [record "d"])])))
    (lit "followers_1.json") (lit "following.json")
  = Raise TypeError.
Proof. repeat split; vm_compute; reflexivity. Qed.

(** C8, amended. The analyzer accepts the followers document as a plain
    sequence of records and the following document as an object that holds
    such a sequence under [relationships_following]; the object shape yields
    the usernames of the sequence it holds, the same set that the plain
    sequence yields where a plain sequence is read. *)
Theorem analyze_document_shapes (fs : filesystem)
    (followers_file following_file : str)
    (followers_records following_records : list json)
    (fields : list (str * json)) :
  Forall (λ item, record_shaped item = true) followers_records →
  Forall (λ item, record_shaped item = true) following_records →
  fs followers_file = decoded (JList followers_records) →
  fs following_file = decoded (JDict fields) →
  dict_lookup fields relationships_following
    = Some (JList following_records) →
  _extract_usernames (JDict fields) (Some relationships_following)
    = _extract_usernames (JList following_records) None ∧
  analyze_instagram_data fs followers_file following_file
    = Ok (usernames_of following_records ∖ usernames_of followers_records,
          usernames_of followers_records ∖ usernames_of following_records).
Proof.
  intros Hfollowers Hfollowing Hp Hq Hfield.
  assert (_extract_usernames (JDict fields) (Some relationships_following)
          = _extract_usernames (JList following_records) None) as Hsame.
  { by rewrite extract_following_fields, Hfield. }
  split; [done|].
  apply (analyze_of_extracted _ _ _ _ _ _ _ Hp Hq).
  - by apply extract_usernames_shaped.
  - rewrite Hsame. by apply extract_usernames_shaped.
Qed.

Lemma analyze_document_shapes_example :
  analyze_instagram_data
    (two_files (decoded (JList [record "a"; record "b"]))
               (decoded (JDict [(lit "owner", JStr (lit "me"));
                                (relationships_following,
                                 JList [record "b"; record "c"])])))
    (lit "followers_1.json") (lit "following.json")
  = Ok ({[HStr (lit "c")]}, {[HStr (lit "a")]}).
Proof.
  eapply eq_trans.
  - apply (analyze_document_shapes _ _ _
             [record "a"; record "b"] [record "b"; record "c"]
             [(lit "owner", JStr (lit "me"));
              (relationships_following, JList [record "b"; record "c"])]);
      try (repeat constructor); vm_compute; reflexivity.
  - vm_compute. reflexivity.
Defined.



(** * Properties of the renderer *)

Section Order.

Lemma str_leb_total (a b : str) : str_leb a b = true ∨ str_leb b a = true.
Proof.
  revert b. induction a as [|c a IH]; intros [|d b]; simpl; auto.
  destruct (N.ltb_spec c d), (N.ltb_spec d c); auto; lia.
Qed.

Lemma str_leb_trans (a b c : str) :
  str_leb a b = true → str_leb b c = true → str_leb a c = true.
Proof.
  revert b c. induction a as [|x a IH]; intros [|y b] [|z c]; simpl; try done.
  destruct (N.ltb_spec x y), (N.ltb_spec y x), (N.ltb_spec y z),
    (N.ltb_spec z y), (N.ltb_spec x z), (N.ltb_spec z x);
    try done; try lia; eauto.
Qed.

Lemma str_leb_antisym (a b : str) :
  str_leb a b = true → str_leb b a = true → a = b.
Proof.
  revert b. induction a as [|x a IH]; intros [|y b]; simpl; try done.
  destruct (N.ltb_spec x y), (N.ltb_spec y x); try done; try lia.
  intros. f_equal; [lia|auto].
Qed.

#[global] Instance str_le_total : Total str_le.
Proof. intros a b. apply str_leb_total. Qed.

#[global] Instance str_le_trans : Transitive str_le.
Proof. intros a b c. apply str_leb_trans. Qed.

#[global] Instance str_le_antisym : AntiSymm (=) str_le.
Proof. intros a b. apply str_leb_antisym. Qed.

(** [sorted] of the elements of a set: the same elements, each once, in
    ascending order. *)
Lemma sorted_elements (user_list : gset str) :
  let sorted_users := sorted (elements user_list) in
  sorted_users ≡ₚ elements user_list ∧
  NoDup sorted_users ∧
  StronglySorted str_le sorted_users ∧
  ∀ u, u ∈ sorted_users ↔ u ∈ user_list.
Proof.
  intros sorted_users. subst sorted_users. unfold sorted.
  assert (merge_sort str_le (elements user_list) ≡ₚ elements user_list)
    as Hperm by apply merge_sort_Permutation.
  split_and!.
  - done.
  - rewrite Hperm. apply NoDup_elements.
  - apply StronglySorted_merge_sort; apply _.
  - intros u. rewrite Hperm. apply elem_of_elements.
Qed.

Lemma sorted_nonempty (user_list : gset str) :
  user_list ≠ ∅ → sorted (elements user_list) ≠ [].
Proof.
  intros Hne Hnil. apply Hne, leibniz_equiv, elements_empty_iff.
  apply Permutation_nil_r. rewrite <- Hnil. unfold sorted.
  by rewrite merge_sort_Permutation.
Qed.

End Order.

(** * Further properties of the rendered texts *)

Lemma encode_decode_latin1 (s : str) :
  decode_latin1 (encode_latin1_replace s) = s ↔
  Forall (λ c, (c ≤ 255)%N) s.
Proof.
  unfold decode_latin1, encode_latin1_replace.
  induction s as [|c s IH]; cbn.
  - split; [constructor|done].
  - rewrite Forall_cons. destruct (N.leb_spec c 255) as [Hle|Hgt].
    + split.
      * intros [= Heq]. split; [done|]. by apply IH.
      * intros [_ Hall]. f_equal. by apply IH.
    + split.
      * intros [= <- _]. lia.
      * intros [? _]. lia.
Qed.

(** The text of an entry: the bullet, then the entry sanitized. *)
Lemma safe_user_text (user : str) :
  safe_user user = lit "- " ++ sanitize user.
Proof.
  unfold safe_user, sanitize, decode_latin1, encode_latin1_replace.
  by rewrite fmap_app.
Qed.

Lemma sanitize_latin1 (s : str) :
  Forall (λ c, (c ≤ 255)%N) s → sanitize s = s.
Proof. apply encode_decode_latin1. Qed.

(** A common beginning does not change how two strings compare. *)
Lemma str_leb_app (p a b : str) : str_leb (p ++ a) (p ++ b) = str_leb a b.
Proof.
  induction p as [|c p IH]; [done|]. cbn. by rewrite N.ltb_irrefl.
Qed.

#[global] Instance bullet_inj (p : str) : Inj (=) (=) (app p).
Proof. intros a b. apply app_inv_head. Qed.

(** The bulleted texts of a sorted list without repetitions are themselves
    sorted and without repetitions. *)
Lemma bulleted_sorted (p : str) (l : list str) :
  NoDup l → StronglySorted str_le l →
  NoDup (app p <$> l) ∧ StronglySorted str_le (app p <$> l).
Proof.
  intros Hnodup Hsorted. split.
  - by apply (NoDup_fmap_2 (app p)).
  - eapply StronglySorted_fmap; [|exact Hsorted].
    intros a b. unfold str_le. by rewrite str_leb_app.
Qed.

Section Layout.
Context {F : Type} `{!Arith F}.

Implicit Types (pdf : FPDF.t F) (st : @loop_state F) (cw ch : F).
Implicit Types (user title : str) (users : list str) (color : Z * Z * Z).

(** What [cell] adds to the log, and where a cell with [ln = 1] leaves the
    cursor. *)
Lemma cell_out pdf cw ch (txt : str) (ln : Z) :
  FPDF.out (FPDF.cell pdf cw ch txt ln) =
    FPDF.out pdf ++
    [FPDF.Cell (FPDF.page pdf) (FPDF.x pdf) (FPDF.y pdf) cw ch txt].
Proof. unfold FPDF.cell. by destruct (decide _). Qed.

Lemma cell_next_line pdf cw ch (txt : str) :
  let pdf1 := FPDF.cell pdf cw ch txt 1 in
  FPDF.page pdf1 = FPDF.page pdf ∧
  FPDF.x pdf1 = FPDF.l_margin pdf ∧
  FPDF.y pdf1 = fadd (FPDF.y pdf) ch ∧
  FPDF.l_margin pdf1 = FPDF.l_margin pdf.
Proof. by unfold FPDF.cell. Qed.

(** Where the loop body draws, and what it leaves behind: one cell is
    added, at the grid position that [next_cell] computes, and the cursor
    stays on the row of that cell. *)
Lemma loop_body_spec cw st user :
  let '(pdf1, current_y, page_item_index, col_index, row_index) :=
    next_cell st in
  let cx := fadd (FPDF.l_margin pdf1)
                 (fmul (of_int (Z.of_nat col_index)) cw) in
  let cy := fadd current_y (of_int (Z.of_nat row_index * line_height)) in
  ∃ pdf2,
    loop_body cw st user = (pdf2, current_y, (page_item_index + 1)%nat) ∧
    FPDF.out pdf2 =
      FPDF.out pdf1 ++
      [FPDF.Cell (FPDF.page pdf1) cx cy cw (of_int line_height)
                 (safe_user user)] ∧
    FPDF.page pdf2 = FPDF.page pdf1 ∧
    FPDF.y pdf2 = cy ∧
    FPDF.l_margin pdf2 = FPDF.l_margin pdf1 ∧
    FPDF.t_margin pdf2 = FPDF.t_margin pdf1 ∧
    FPDF.h pdf2 = FPDF.h pdf1 ∧
    FPDF.b_margin pdf2 = FPDF.b_margin pdf1.
Proof.
  unfold loop_body.
  destruct (next_cell st) as [[[[pdf1 current_y] idx] col] row].
  eexists. split; [reflexivity|]. by cbn.
Qed.

(** [next_cell] draws nothing and keeps the margins. *)
Lemma next_cell_out st :
  FPDF.out (next_cell st).1.1.1.1 = FPDF.out st.1.1 ∧
  FPDF.l_margin (next_cell st).1.1.1.1 = FPDF.l_margin st.1.1.
Proof.
  destruct st as [[pdf current_y] idx]. unfold next_cell.
  by destruct (fgt _ _).
Qed.

Lemma loop_body_out cw st user :
  ∃ pg cx cy,
    FPDF.out (loop_body cw st user).1.1 =
      FPDF.out st.1.1 ++
      [FPDF.Cell pg cx cy cw (of_int line_height) (safe_user user)] ∧
    FPDF.page (loop_body cw st user).1.1 = pg ∧
    FPDF.y (loop_body cw st user).1.1 = cy ∧
    FPDF.l_margin (loop_body cw st user).1.1 = FPDF.l_margin st.1.1.
Proof.
  pose proof (loop_body_spec cw st user) as Hspec.
  pose proof (next_cell_out st) as [Hout Hmargin].
  destruct (next_cell st) as [[[[pdf1 current_y] idx] col] row].
  destruct Hspec as (pdf2 & -> & Hcell & Hpage & Hy & Hl & _).
  cbn in *. rewrite Hcell, Hout, Hl, Hmargin. eauto 10.
Qed.

(** The whole loop: one cell per entry, in the order of the list. *)
Lemma loop_out cw users st :
  ∃ cells,
    FPDF.out (foldl (loop_body cw) st users).1.1
      = FPDF.out st.1.1 ++ cells ∧
    omap cell_text cells = safe_user <$> users ∧
    FPDF.l_margin (foldl (loop_body cw) st users).1.1
      = FPDF.l_margin st.1.1.
Proof.
  revert st. induction users as [|user users IH]; intros st; simpl.
  - exists []. by rewrite app_nil_r.
  - destruct (IH (loop_body cw st user)) as (cells & -> & Htexts & ->).
    destruct (loop_body_out cw st user) as (pg & cx & cy & -> & _ & _ & ->).
    eexists (_ :: cells). rewrite <- app_assoc. split; [done|].
    split; [|done]. cbn. by rewrite Htexts.
Qed.

(** After a loop over at least one entry, the last thing drawn is the cell
    of the last entry, and the cursor is on its page and on its row. *)
Lemma loop_last cw users user st :
  ∃ pg cx cy,
    last (FPDF.out (foldl (loop_body cw) st (users ++ [user])).1.1)
      = Some (FPDF.Cell pg cx cy cw (of_int line_height)
                        (safe_user user)) ∧
    FPDF.page (foldl (loop_body cw) st (users ++ [user])).1.1 = pg ∧
    FPDF.y (foldl (loop_body cw) st (users ++ [user])).1.1 = cy.
Proof.
  rewrite foldl_snoc.
  destruct (loop_body_out cw (foldl (loop_body cw) st users) user)
    as (pg & cx & cy & -> & ? & ? & _).
  exists pg, cx, cy. by rewrite last_snoc.
Qed.

(** The marker and the title line: two things drawn, the cursor at the
    left margin of the same page, 10 units further down. *)
Lemma draw_title_spec pdf title user_list color :
  let pdf1 := draw_title pdf title user_list color in
  FPDF.out pdf1 =
    FPDF.out pdf ++
    [FPDF.Ellipse (FPDF.page pdf) (FPDF.x pdf)
       (fadd (FPDF.y pdf) (fdiv (of_int 7) (of_int 2)))
       (of_int 3) (of_int 3);
     FPDF.Cell (FPDF.page pdf) (fadd (FPDF.x pdf) (of_int 5)) (FPDF.y pdf)
       (of_int 0) (of_int 10) (title_text title user_list)] ∧
  FPDF.page pdf1 = FPDF.page pdf ∧
  FPDF.x pdf1 = FPDF.l_margin pdf ∧
  FPDF.y pdf1 = fadd (FPDF.y pdf) (of_int 10) ∧
  FPDF.l_margin pdf1 = FPDF.l_margin pdf.
Proof. unfold draw_title, FPDF.cell. cbn. by rewrite <- app_assoc. Qed.

(** The two branches of [draw_list_in_columns]. *)
Lemma draw_list_empty pdf title color :
  draw_list_in_columns pdf title ∅ color =
    FPDF.cell (draw_title pdf title ∅ color) (of_int 0) (of_int 7)
              (lit "  None.") 1.
Proof. unfold draw_list_in_columns. by rewrite decide_True. Qed.

Lemma draw_list_nonempty pdf title (user_list : gset str) color :
  user_list ≠ ∅ →
  let pdf1 := draw_title pdf title user_list color in
  let pdf2 :=
    (foldl (loop_body (column_width pdf1)) (pdf1, FPDF.y pdf1, 0%nat)
           (sorted (elements user_list))).1.1 in
  draw_list_in_columns pdf title user_list color =
    FPDF.set_y pdf2 (fadd (FPDF.y pdf2) (of_int (line_height * 2)%Z)).
Proof.
  intros Hne. unfold draw_list_in_columns. rewrite decide_False by done.
  cbv zeta. by destruct (foldl _ _ _) as [[pdf2 ?] ?].
Qed.

End Layout.

(** * The renderer over the writer with its page break *)

Section PagedLayout.
Context {F : Type} `{!Arith F}.

Implicit Types (pdf : FPDF.t F) (st : @loop_state F) (cw ch : F).
Implicit Types (user title : str) (users : list str) (color : Z * Z * Z).

Lemma geometry_fields pdf pdf' :
  geometry pdf' = geometry pdf →
  FPDF.w pdf' = FPDF.w pdf ∧ FPDF.h pdf' = FPDF.h pdf ∧
  FPDF.l_margin pdf' = FPDF.l_margin pdf ∧
  FPDF.r_margin pdf' = FPDF.r_margin pdf ∧
  FPDF.t_margin pdf' = FPDF.t_margin pdf ∧
  FPDF.b_margin pdf' = FPDF.b_margin pdf.
Proof. unfold geometry. by intros [= -> -> -> -> -> ->]. Qed.

Lemma geometry_fields_early pdf pdf' :
  geometry pdf' = geometry pdf →
  FPDF.h pdf' = FPDF.h pdf ∧ FPDF.b_margin pdf' = FPDF.b_margin pdf ∧
  FPDF.l_margin pdf' = FPDF.l_margin pdf ∧
  FPDF.t_margin pdf' = FPDF.t_margin pdf.
Proof. unfold geometry. by intros [= _ -> -> _ -> ->]. Qed.

(** Where the test fails, the library's [cell] is its drawing part. *)
Lemma paged_cell_fits pdf cw ch (txt : str) (ln : Z) :
  will_page_break pdf ch = false →
  Paged.cell pdf cw ch txt ln = FPDF.cell pdf cw ch txt ln.
Proof. unfold Paged.cell. by intros ->. Qed.

(** One cell: drawn at the cursor, or at the top margin of a new page. *)
Lemma paged_cell_spec pdf cw ch (txt : str) (ln : Z) :
  let pdf' := Paged.cell pdf cw ch txt ln in
  let '(pg, cy) :=
    if will_page_break pdf ch then (S (FPDF.page pdf), FPDF.t_margin pdf)
    else (FPDF.page pdf, FPDF.y pdf) in
  FPDF.out pdf' = FPDF.out pdf ++ [FPDF.Cell pg (FPDF.x pdf) cy cw ch txt] ∧
  FPDF.page pdf' = pg ∧
  geometry pdf' = geometry pdf ∧
  (ln = 1%Z → FPDF.x pdf' = FPDF.l_margin pdf ∧ FPDF.y pdf' = fadd cy ch) ∧
  (ln = 0%Z → FPDF.y pdf' = cy).
Proof.
  unfold Paged.cell. rewrite cell_out. unfold FPDF.cell.
  destruct (will_page_break pdf ch), (decide (0 < ln)%Z); cbn;
    (split_and!; [done..| |]; intros ->; first [lia | by cbn]).
Qed.

(** The marker and the title line. *)
Lemma paged_draw_title_spec pdf title (user_list : gset str) color :
  let pdf1 := Paged.draw_title pdf title user_list color in
  let '(pg, cy) :=
    if will_page_break pdf (of_int 10)
    then (S (FPDF.page pdf), FPDF.t_margin pdf)
    else (FPDF.page pdf, FPDF.y pdf) in
  FPDF.out pdf1 =
    FPDF.out pdf ++
    [FPDF.Ellipse (FPDF.page pdf) (FPDF.x pdf)
       (fadd (FPDF.y pdf) (fdiv (of_int 7) (of_int 2)))
       (of_int 3) (of_int 3);
     FPDF.Cell pg (fadd (FPDF.x pdf) (of_int 5)) cy
       (of_int 0) (of_int 10) (title_text title user_list)] ∧
  FPDF.page pdf1 = pg ∧
  FPDF.x pdf1 = FPDF.l_margin pdf ∧
  FPDF.y pdf1 = fadd cy (of_int 10) ∧
  geometry pdf1 = geometry pdf.
Proof.
  unfold Paged.draw_title, Paged.cell, FPDF.cell, will_page_break. cbn.
  destruct (fgt _ _); cbn; by rewrite <- app_assoc.
Qed.

(** The two branches of [Paged.draw_list_in_columns]. *)
Lemma paged_draw_list_empty pdf title color :
  Paged.draw_list_in_columns pdf title ∅ color =
    Paged.cell (Paged.draw_title pdf title ∅ color) (of_int 0) (of_int 7)
               (lit "  None.") 1.
Proof. unfold Paged.draw_list_in_columns. by rewrite decide_True. Qed.

Lemma paged_draw_list_nonempty pdf title (user_list : gset str) color :
  user_list ≠ ∅ →
  let pdf1 := Paged.draw_title pdf title user_list color in
  let pdf2 :=
    (foldl (Paged.loop_body (column_width pdf1)) (pdf1, FPDF.y pdf1, 0)
           (sorted (elements user_list))).1.1 in
  Paged.draw_list_in_columns pdf title user_list color =
    FPDF.set_y pdf2 (fadd (FPDF.y pdf2) (of_int (line_height * 2)%Z)).
Proof.
  intros Hne. unfold Paged.draw_list_in_columns.
  rewrite decide_False by done.
  cbv zeta. by destruct (foldl _ _ _) as [[pdf2 ?] ?].
Qed.

End PagedLayout.

Section PagedLoop.
Context {F : Type} `{!Arith F}.

Implicit Types (pdf : FPDF.t F) (st : @loop_state F) (cw ch : F).
Implicit Types (user title : str) (users : list str) (color : Z * Z * Z).

(** One iteration: the geometry stays, one cell is drawn, one column wide
    and one line high, at the left edge of one of the three columns, and at
    most two pages are opened (one by the loop, one by the writer). *)
Lemma paged_loop_body_step cw pdf (current_y : F) (idx : nat) user :
  ∃ pdf' current_y' idx' pg col cy,
    Paged.loop_body cw (pdf, current_y, idx) user
      = (pdf', current_y', idx') ∧
    geometry pdf' = geometry pdf ∧
    FPDF.out pdf' =
      FPDF.out pdf ++
      [FPDF.Cell pg
         (fadd (FPDF.l_margin pdf) (fmul (of_int (Z.of_nat col)) cw))
         cy cw (of_int line_height) (safe_user user)] ∧
    col < num_cols ∧
    FPDF.page pdf ≤ FPDF.page pdf' ≤ FPDF.page pdf + 2.
Proof.
  unfold Paged.loop_body, next_cell.
  destruct (fgt _ _).
  - match goal with
    | |- context [Paged.cell ?p ?w ?h ?t ?l] =>
        pose proof (paged_cell_spec p w h t l) as Hcell;
        destruct (will_page_break p h)
    end;
      destruct Hcell as (Hout & Hpage & Hgeo & _);
      eexists _, _, _, _, 0, _;
      (split; [reflexivity|]); rewrite Hout, Hpage, Hgeo; cbn;
      (split_and!; [done|done|unfold num_cols; lia|lia|lia]).
  - match goal with
    | |- context [Paged.cell ?p ?w ?h ?t ?l] =>
        pose proof (paged_cell_spec p w h t l) as Hcell;
        destruct (will_page_break p h)
    end;
      destruct Hcell as (Hout & Hpage & Hgeo & _);
      eexists _, _, _, _, (idx mod num_cols), _;
      (split; [reflexivity|]); rewrite Hout, Hpage, Hgeo;
      (split_and!;
         [done|done|by apply Nat.mod_upper_bound|cbn; lia|cbn; lia]).
Qed.

(** The loop as a whole. *)
Lemma paged_loop_invariant cw users pdf (current_y : F) (idx : nat) :
  ∃ pdf' current_y' idx' cells,
    foldl (Paged.loop_body cw) (pdf, current_y, idx) users
      = (pdf', current_y', idx') ∧
    geometry pdf' = geometry pdf ∧
    FPDF.out pdf' = FPDF.out pdf ++ cells ∧
    length cells = length users ∧
    FPDF.page pdf ≤ FPDF.page pdf' ≤ FPDF.page pdf + 2 * length users ∧
    Forall2 (λ d user, ∃ pg col cy,
               col < num_cols ∧
               d = FPDF.Cell pg
                     (fadd (FPDF.l_margin pdf)
                           (fmul (of_int (Z.of_nat col)) cw))
                     cy cw (of_int line_height) (safe_user user))
            cells users.
Proof.
  revert pdf current_y idx.
  induction users as [|user users IH]; intros pdf current_y idx.
  - exists pdf, current_y, idx, []. cbn. rewrite app_nil_r.
    split_and!; try done; lia.
  - destruct (paged_loop_body_step cw pdf current_y idx user)
      as (pdf1 & cy1 & idx1 & pg & col & cy & Hstep & Hgeo & Hout & Hcol
          & Hpage1).
    destruct (IH pdf1 cy1 idx1)
      as (pdf2 & cy2 & idx2 & cells & Hrun & Hgeo2 & Hout2 & Hlen & Hpage
          & Hcells).
    pose proof (geometry_fields pdf pdf1 Hgeo) as (_ & _ & Hl & _).
    eexists pdf2, cy2, idx2, (_ :: cells).
    cbn [foldl]. rewrite Hstep, Hrun, Hout2, Hout, <- app_assoc.
    split_and!; try done.
    + congruence.
    + cbn. by rewrite Hlen.
    + lia.
    + cbn [length]. lia.
    + constructor; [by exists pg, col, cy|].
      eapply Forall2_impl; [exact Hcells|]. cbn.
      intros d u (pg' & c & y' & ? & ->). exists pg', c, y'.
      by rewrite Hl.
Qed.

(** The texts of everything that one call draws. *)
Lemma paged_draw_list_texts pdf title (user_list : gset str) color :
  ∃ drawn,
    FPDF.out (Paged.draw_list_in_columns pdf title user_list color)
      = FPDF.out pdf ++ drawn ∧
    omap cell_text drawn =
      title_text title user_list ::
      (if decide (user_list = ∅) then [lit "  None."]
       else safe_user <$> sorted (elements user_list)).
Proof.
  pose proof (paged_draw_title_spec pdf title user_list color) as Htitle.
  destruct (decide (user_list = ∅)) as [->|Hne].
  - rewrite paged_draw_list_empty.
    pose proof (paged_cell_spec (Paged.draw_title pdf title ∅ color)
                  (of_int 0) (of_int 7) (lit "  None.") 1) as Hnone.
    cbv zeta in Htitle, Hnone.
    destruct (will_page_break pdf _), (will_page_break (Paged.draw_title _ _ _ _) _);
      destruct Htitle as (Hout1 & _); destruct Hnone as (-> & _);
      rewrite Hout1, <- app_assoc; eexists; (split; [reflexivity|done]).
  - rewrite paged_draw_list_nonempty by done. cbn [FPDF.set_y FPDF.out].
    set (pdf1 := Paged.draw_title pdf title user_list color) in *.
    destruct (paged_loop_invariant (column_width pdf1)
                (sorted (elements user_list)) pdf1 (FPDF.y pdf1) 0)
      as (pdf2 & cy & idx & cells & Hrun & _ & Hout2 & _ & _ & Hcells).
    rewrite Hrun. cbn [fst]. rewrite Hout2.
    assert (omap cell_text cells = safe_user <$> sorted (elements user_list))
      as Htexts.
    { clear -Hcells. induction Hcells as [|d u cells users Hd _ IH]; [done|].
      destruct Hd as (pg & col & y & _ & ->). cbn. by rewrite IH. }
    cbv zeta in Htitle.
    destruct (will_page_break pdf _); destruct Htitle as (-> & _);
      rewrite <- app_assoc; eexists; (split; [reflexivity|]); cbn;
      by rewrite Htexts.
Qed.

End PagedLoop.

(** * The claims about the renderer *)

(** C1, as the spec states it, fails: what is read back is not always the
    sorted input. A character beyond Latin-1 is drawn as "?", so the set of
    "B" and U+0100 reads back as "B" and "?", which is not the input and
    not in ascending order, and two names of such characters read back the
    same. *)
Lemma read_back_beyond_latin1 :
  sorted (elements ({[lit "B"; [256%N]]} : gset str))
    = [lit "B"; [256%N]] ∧
  placed_texts (a4 40)
    (draw_list_in_columns (a4 40) (lit "Fans") {[lit "B"; [256%N]]} red)
    = [lit "Fans (2)"; lit "- B"; lit "- ?"] ∧
  str_leb (lit "- B") (lit "- ?") = false ∧
  placed_texts (a4 40)
    (draw_list_in_columns (a4 40) (lit "Fans") {[[20013%N]; [25991%N]]} red)
    = [lit "Fans (2)"; lit "- ?"; lit "- ?"].
Proof. repeat split; vm_compute; reflexivity. Qed.

(** C1, amended. Whatever pages the loop opens, a call draws one cell per
    entry, in the ascending order of the entries (the sorted list holds the
    elements of the set, each one once); the cell of an entry carries "- "
    and the entry with every character beyond Latin-1 replaced by "?". The
    page breaks of the writer itself do not change what is read back.
    When all the entries are Latin-1, the texts read back are "- " and the
    entry itself: they are pairwise different, in ascending order, and
    there is one for every entry of the set and for nothing else. (For the
    empty set the line after the title is the "None." line.) *)
Theorem entries_placed_in_sorted_order {F : Type} `{!Arith F}
    (pdf : FPDF.t F) (title : str) (user_list : gset str)
    (color : Z * Z * Z) :
  let after := draw_list_in_columns pdf title user_list color in
  let sorted_users := sorted (elements user_list) in
  (sorted_users ≡ₚ elements user_list ∧
   NoDup sorted_users ∧
   StronglySorted str_le sorted_users ∧
   ∀ u, u ∈ sorted_users ↔ u ∈ user_list) ∧
  placed_texts pdf after =
    title_text title user_list ::
    (if decide (user_list = ∅) then [lit "  None."]
     else (λ u, lit "- " ++ sanitize u) <$> sorted_users) ∧
  placed_texts pdf (Paged.draw_list_in_columns pdf title user_list color)
    = placed_texts pdf after ∧
  ((∀ u, u ∈ user_list → Forall (λ c, (c ≤ 255)%N) u) →
   let texts := app (lit "- ") <$> sorted_users in
   (user_list ≠ ∅ →
    placed_texts pdf after = title_text title user_list :: texts) ∧
   NoDup texts ∧
   StronglySorted str_le texts ∧
   ∀ t, t ∈ texts ↔ ∃ u, u ∈ user_list ∧ t = lit "- " ++ u).
Proof.
  intros after sorted_users.
  pose proof (sorted_elements user_list)
    as (Hperm & Hnodup & Hsorted & Hmem).
  fold sorted_users in Hperm, Hnodup, Hsorted, Hmem.
  assert (placed_texts pdf after =
            title_text title user_list ::
            (if decide (user_list = ∅) then [lit "  None."]
             else (λ u, lit "- " ++ sanitize u) <$> sorted_users))
    as Hread.
  { subst after sorted_users. unfold placed_texts.
    destruct (decide (user_list = ∅)) as [->|Hne].
    - rewrite draw_list_empty.
      destruct (draw_title_spec pdf title ∅ color) as (Hout & _).
      by rewrite cell_out, Hout, <- !app_assoc, drop_app_length.
    - rewrite draw_list_nonempty by done. cbn [FPDF.set_y FPDF.out].
      set (pdf1 := draw_title pdf title user_list color).
      destruct (loop_out (column_width pdf1) (sorted (elements user_list))
                  (pdf1, FPDF.y pdf1, 0)) as (cells & -> & Htexts & _).
      destruct (draw_title_spec pdf title user_list color) as (Hout & _).
      cbn [fst]. fold pdf1 in Hout.
      rewrite Hout, <- app_assoc, drop_app_length. cbn. rewrite Htexts.
      reflexivity. }
  split; [done|]. split; [done|]. split.
  { rewrite Hread. unfold placed_texts.
    destruct (paged_draw_list_texts pdf title user_list color)
      as (drawn & -> & Htexts).
    rewrite drop_app_length, Htexts. reflexivity. }
  intros Hlatin texts.
  destruct (bulleted_sorted (lit "- ") sorted_users Hnodup Hsorted)
    as [Hnodup' Hsorted'].
  split_and!; [|done|done|].
  - intros Hne. rewrite Hread, decide_False by done. f_equal.
    apply list_fmap_ext. intros _ u Hu%list_elem_of_lookup_2.
    cbv beta. rewrite sanitize_latin1; [done|]. apply Hlatin, Hmem, Hu.
  - intros t. subst texts. rewrite list_elem_of_fmap.
    setoid_rewrite Hmem. naive_solver.
Qed.

(** Five Latin-1 names: the texts read back are the five names in ascending
    order, each with its bullet. *)
Lemma entries_placed_in_sorted_order_example :
  let user_list := names ["dora"; "bob"; "alice"; "carol"; "eve"] in
  placed_texts (a4 262)
    (draw_list_in_columns (a4 262) (lit "Fans") user_list red)
  = title_text (lit "Fans") user_list ::
    (app (lit "- ") <$> sorted (elements user_list)).
Proof.
  intros user_list.
  apply (entries_placed_in_sorted_order (a4 262) (lit "Fans") user_list red).
  - intros u Hu. unfold user_list, names in Hu.
    apply elem_of_list_to_set, list_elem_of_fmap in Hu as (name & -> & Hin).
    set_unfold in Hin. destruct_or! Hin; subst name;
      repeat constructor; vm_compute; discriminate.
  - vm_compute. discriminate.
Defined.

(** Five names on a page with room for the title only: the texts come back
    in ascending order. *)
Example five_names_read_back :
  placed_texts (a4 262)
    (draw_list_in_columns (a4 262) (lit "Fans")
       (names ["dora"; "bob"; "alice"; "carol"; "eve"]) red)
  = lit <$> ["Fans (5)"; "- alice"; "- bob"; "- carol"; "- dora"; "- eve"].
Proof. vm_compute. reflexivity. Qed.

(** C2. When the row of the next entry does not fit (its target Y, the
    block's start plus the row of the page-local index times the line
    height, is greater than the bottom bound minus one line height), the
    loop opens a new page, takes the top margin as the block's start and
    restarts the page-local index: the entry that did not fit is the one
    cell drawn by this iteration, on the new page, in column 0 and row 0,
    and the index after it is 1. *)
Theorem page_break_restarts_grid {F : Type} `{!Arith F} (cw : F)
    (st0 : loop_state) (before : list str) (user : str)
    (pdf : FPDF.t F) (current_y : F) (page_item_index : nat) :
  foldl (loop_body cw) st0 before = (pdf, current_y, page_item_index) →
  fgt (fadd current_y
            (of_int (Z.of_nat (page_item_index / num_cols) * line_height)))
      (fsub (fsub (FPDF.h pdf) (FPDF.b_margin pdf)) (of_int line_height))
    = true →
  ∃ pdf',
    foldl (loop_body cw) st0 (before ++ [user])
      = (pdf', FPDF.t_margin pdf, 1%nat) ∧
    FPDF.page pdf' = S (FPDF.page pdf) ∧
    FPDF.out pdf' =
      FPDF.out pdf ++
      [FPDF.Cell (S (FPDF.page pdf))
         (fadd (FPDF.l_margin pdf) (fmul (of_int 0) cw))
         (fadd (FPDF.t_margin pdf) (of_int (0 * line_height)))
         cw (of_int line_height) (safe_user user)].
Proof.
  intros Hbefore Hexceeds. rewrite foldl_snoc, Hbefore.
  pose proof (loop_body_spec cw (pdf, current_y, page_item_index) user)
    as Hspec.
  unfold next_cell in Hspec. rewrite Hexceeds in Hspec.
  destruct Hspec as (pdf' & -> & Hout & Hpage & _).
  exists pdf'. by rewrite Hout, Hpage.
Qed.

(** Three entries fill the row at 265; the row below would start at 272,
    past 297 - 20 - 7 = 270, so the fourth entry opens page 2. *)
Lemma page_break_restarts_grid_example :
  ∃ pdf',
    foldl (loop_body (190 # 3)%Q) (a4 265, 265%Q, 0%nat)
          (lit <$> ["a"; "b"; "c"; "d"])
      = (pdf', 10%Q, 1%nat) ∧
    FPDF.page pdf' = 2%nat ∧
    last (FPDF.out pdf')
      = Some (FPDF.Cell 2 10%Q 10%Q (190 # 3)%Q 7%Q (lit "- d")).
Proof.
  destruct (page_break_restarts_grid (190 # 3)%Q (a4 265, 265%Q, 0%nat)
              (lit <$> ["a"; "b"; "c"]) (lit "d")
              (fst (fst (foldl (loop_body (190 # 3)%Q) (a4 265, 265%Q, 0%nat)
                               (lit <$> ["a"; "b"; "c"]))))
              265%Q 3%nat)
    as (pdf' & Hrun & Hpage & Hout).
  - vm_compute. reflexivity.
  - vm_compute. reflexivity.
  - exists pdf'. split; [exact Hrun|]. split; [exact Hpage|].
    rewrite Hout, last_snoc. vm_compute. reflexivity.
Defined.

(** C6, as the spec states it, fails: on an empty list the cursor goes down
    by the height of the title line, 10, and the height of the "None." line,
    7, which is 17 and not two line heights (14). *)
Lemma empty_block_advance :
  let after := Paged.draw_list_in_columns (a4 40) (lit "Fans") ∅ red in
  FPDF.page after = 1 ∧
  FPDF.y after = 57%Q ∧
  FPDF.y after ≠ fadd 40%Q (of_int (2 * line_height)).
Proof. repeat split; vm_compute; first [reflexivity | discriminate]. Qed.

(** C6, amended. For an empty list the renderer draws the marker, the title
    line and one "None." line, and engages no column logic. Each of the two
    lines is drawn at the cursor, or at the top margin of a new page when
    the writer finds that it would pass the bottom margin; the cursor ends
    at the left margin, one line height below the "None." line. Where both
    lines fit, that is on the same page, lower by the height of the title
    line (10) plus one line height (7). *)
Theorem empty_list_block {F : Type} `{!Arith F}
    (pdf : FPDF.t F) (title : str) (color : Z * Z * Z) :
  let after := Paged.draw_list_in_columns pdf title ∅ color in
  let bottom := fsub (FPDF.h pdf) (FPDF.b_margin pdf) in
  let title_breaks := fgt (fadd (FPDF.y pdf) (of_int 10)) bottom in
  let title_page :=
    if title_breaks then S (FPDF.page pdf) else FPDF.page pdf in
  let title_y :=
    if title_breaks then FPDF.t_margin pdf else FPDF.y pdf in
  let none_breaks :=
    fgt (fadd (fadd title_y (of_int 10)) (of_int line_height)) bottom in
  let none_page := if none_breaks then S title_page else title_page in
  let none_y :=
    if none_breaks then FPDF.t_margin pdf else fadd title_y (of_int 10) in
  FPDF.out after =
    FPDF.out pdf ++
    [FPDF.Ellipse (FPDF.page pdf) (FPDF.x pdf)
       (fadd (FPDF.y pdf) (fdiv (of_int 7) (of_int 2)))
       (of_int 3) (of_int 3);
     FPDF.Cell title_page (fadd (FPDF.x pdf) (of_int 5)) title_y
       (of_int 0) (of_int 10) (title ++ lit " (0)");
     FPDF.Cell none_page (FPDF.l_margin pdf) none_y
       (of_int 0) (of_int line_height) (lit "  None.")] ∧
  FPDF.page after = none_page ∧
  FPDF.x after = FPDF.l_margin pdf ∧
  FPDF.y after = fadd none_y (of_int line_height) ∧
  (title_breaks = false → none_breaks = false →
   FPDF.page after = FPDF.page pdf ∧
   FPDF.y after
     = fadd (fadd (FPDF.y pdf) (of_int 10)) (of_int line_height)).
Proof.
  intros after bottom title_breaks title_page title_y none_breaks none_page
    none_y.
  match goal with
  | |- ?A ∧ ?B ∧ ?C ∧ ?D ∧ _ =>
      assert (A ∧ B ∧ C ∧ D) as (Hout & Hpage & Hx & Hy)
  end.
  { subst after. rewrite paged_draw_list_empty.
    change (of_int 7) with (of_int line_height).
    pose proof (paged_draw_title_spec pdf title ∅ color) as Htitle.
    pose proof (paged_cell_spec (Paged.draw_title pdf title ∅ color)
                  (of_int 0) (of_int line_height) (lit "  None.") 1)
      as Hnone.
    unfold will_page_break in Htitle, Hnone. fold bottom in Htitle.
    fold title_breaks in Htitle.
    cbv zeta in Htitle, Hnone.
    subst title_page title_y none_breaks none_page none_y.
    destruct title_breaks;
      destruct Htitle as (Hout1 & Hpage1 & Hx1 & Hy1 & Hgeo1);
      pose proof (geometry_fields_early _ _ Hgeo1) as (Hh & Hb & Hl & Ht);
      rewrite Hy1, Hh, Hb in Hnone; fold bottom in Hnone;
      destruct (fgt _ bottom);
      destruct Hnone as (Hout2 & Hpage2 & _ & Hcursor & _);
      destruct (Hcursor eq_refl) as [Hx2 Hy2];
      rewrite Hout2, Hpage2, Hx2, Hy2, ?Hout1, ?Hpage1, ?Hx1, ?Hy1, ?Hl,
        ?Ht, <- ?app_assoc;
      done. }
  split_and!; [exact Hout|exact Hpage|exact Hx|exact Hy|].
  intros Htitle Hnone. rewrite Hpage, Hy.
  subst none_page none_y title_page. rewrite Hnone.
  subst title_y. rewrite Htitle. done.
Qed.

(** An empty list with its title at height 262: the title fits, the "None."
    line does not and goes to the top of page 2; the cursor ends at 17. *)
Example empty_block_at_page_end :
  let after := Paged.draw_list_in_columns (a4 262) (lit "Fans") ∅ red in
  FPDF.page after = 2 ∧ FPDF.y after = 17%Q ∧
  last (FPDF.out after)
    = Some (FPDF.Cell 2 10%Q 10%Q 0%Q 7%Q (lit "  None.")).
Proof. repeat split; vm_compute; reflexivity. Qed.

(** C7. For a list that is not empty, the last thing drawn is the cell of
    the last entry of the sorted list, and the renderer leaves the cursor on
    the page of that cell, at the left margin, two line heights below the
    top of its row. *)
Theorem cursor_after_last_entry {F : Type} `{!Arith F}
    (pdf : FPDF.t F) (title : str) (user_list : gset str)
    (color : Z * Z * Z) :
  user_list ≠ ∅ →
  let after := draw_list_in_columns pdf title user_list color in
  ∃ last_user pg cx cy cw,
    last (sorted (elements user_list)) = Some last_user ∧
    last (FPDF.out after)
      = Some (FPDF.Cell pg cx cy cw (of_int line_height)
                        (safe_user last_user)) ∧
    FPDF.page after = pg ∧
    FPDF.y after = fadd cy (of_int (line_height * 2)) ∧
    FPDF.x after = FPDF.l_margin pdf.
Proof.
  intros Hne after. subst after. rewrite draw_list_nonempty by done.
  set (pdf1 := draw_title pdf title user_list color).
  destruct (exists_last (sorted_nonempty user_list Hne))
    as (users & last_user & ->).
  destruct (loop_last (column_width pdf1) users last_user
              (pdf1, FPDF.y pdf1, 0%nat)) as (pg & cx & cy & Hlast & Hpg & Hy).
  destruct (loop_out (column_width pdf1) (users ++ [last_user])
              (pdf1, FPDF.y pdf1, 0%nat)) as (_ & _ & _ & Hmargin).
  destruct (draw_title_spec pdf title user_list color) as (_ & _ & _ & _ & Hl).
  exists last_user, pg, cx, cy, (column_width pdf1).
  cbn [FPDF.set_y FPDF.out FPDF.page FPDF.y FPDF.x].
  rewrite last_snoc, Hlast, Hpg, Hy, Hmargin. by cbn [fst].
Qed.

(** Five names from height 262: the last one, "eve", is in the second row of
    page 2, at height 17, and the cursor ends at 17 + 14 = 31. *)
Example five_names_cursor :
  let after :=
    draw_list_in_columns (a4 262) (lit "Fans")
      (names ["dora"; "bob"; "alice"; "carol"; "eve"]) red in
  last (FPDF.out after)
    = Some (FPDF.Cell 2 (220 # 3)%Q 17%Q (190 # 3)%Q 7%Q (lit "- eve")) ∧
  FPDF.page after = 2%nat ∧ FPDF.y after = 31%Q ∧ FPDF.x after = 10%Q.
Proof. repeat split; vm_compute; reflexivity. Qed.

Lemma cursor_after_last_entry_example :
  let user_list := names ["dora"; "bob"; "alice"; "carol"; "eve"] in
  let after := draw_list_in_columns (a4 262) (lit "Fans") user_list red in
  user_list ≠ ∅ ∧
  ∃ last_user pg cx cy cw,
    last (sorted (elements user_list)) = Some last_user ∧
    last (FPDF.out after)
      = Some (FPDF.Cell pg cx cy cw (of_int line_height)
                        (safe_user last_user)) ∧
    FPDF.page after = pg ∧
    FPDF.y after = fadd cy (of_int (line_height * 2)) ∧
    FPDF.x after = FPDF.l_margin (a4 262).
Proof.
  intros user_list after.
  assert (user_list ≠ ∅) as Hne by (vm_compute; discriminate).
  split; [exact Hne|].
  exact (cursor_after_last_entry (a4 262) (lit "Fans") user_list red Hne).
Defined.

(** C9, as the spec states it, fails: the text placed for the entry "a" is
    "- a", which is not the sanitized entry text "a". *)
Lemma bullet_before_entry :
  placed_texts (a4 40)
    (draw_list_in_columns (a4 40) (lit "Fans") (names ["a"]) red)
  = [lit "Fans (1)"; lit "- a"] ∧
  sanitize (lit "a") = lit "a" ∧
  lit "- a" ≠ sanitize (lit "a").
Proof. repeat split; vm_compute; [reflexivity..|discriminate]. Qed.

(** C9, amended. The text placed at the grid position of an entry is the
    bullet "- " followed by the entry text sanitized to Latin-1, character
    by character: a character beyond U+00FF is replaced with "?", every
    other character is left as it is. *)
Theorem entry_text_sanitized {F : Type} `{!Arith F} (cw : F)
    (st : loop_state) (user : str) :
  let '(pdf1, current_y, page_item_index, col_index, row_index) :=
    next_cell st in
  FPDF.out (loop_body cw st user).1.1 =
    FPDF.out st.1.1 ++
    [FPDF.Cell (FPDF.page pdf1)
       (fadd (FPDF.l_margin pdf1) (fmul (of_int (Z.of_nat col_index)) cw))
       (fadd current_y (of_int (Z.of_nat row_index * line_height)))
       cw (of_int line_height) (lit "- " ++ sanitize user)] ∧
  length (sanitize user) = length user ∧
  ∀ i c, user !! i = Some c →
         sanitize user !! i = Some (if (c <=? 255)%N then c else 63%N).
Proof.
  pose proof (loop_body_spec cw st user) as Hspec.
  pose proof (next_cell_out st) as [Hout _].
  destruct (next_cell st) as [[[[pdf1 current_y] idx] col] row].
  destruct Hspec as (pdf2 & -> & Hcell & _). cbn [fst] in *.
  split_and!.
  - by rewrite Hcell, Hout.
  - unfold sanitize, decode_latin1, encode_latin1_replace.
    by rewrite length_fmap.
  - intros i c Hc. unfold sanitize, decode_latin1, encode_latin1_replace.
    by rewrite list_lookup_fmap, Hc.
Qed.

(** "é" stays, a CJK character becomes "?". *)
Example sanitize_example :
  safe_user [233%N; 20013%N; 97%N] = lit "- " ++ [233%N; 63%N; 97%N].
Proof. reflexivity. Qed.

(** * Further properties of the extraction *)

Section ExtractionMore.

Implicit Types (item : json) (items : list json) (acc : gset hashable).

(** The loop body, with the accumulated set factored out. *)
Lemma extract_item_cases acc item :
  extract_item acc item =
    if aborts item then Raise TypeError
    else Ok (match key_of item with
             | Some a => {[a]} ∪ acc
             | None => acc
             end).
Proof.
  unfold aborts, key_of, extract_item, set_add.
  destruct (username_of item) as [v|e] eqn:Hpath; cbn.
  - by destruct (hash_key v).
  - apply username_of_raises in Hpath as [-> | [-> | ->]]; reflexivity.
Qed.

Lemma extract_loop_cases acc items :
  extract_loop acc items =
    if existsb aborts items then Raise TypeError
    else Ok (list_to_set (omap key_of items) ∪ acc).
Proof.
  revert acc. induction items as [|item items IH]; intros acc; simpl.
  - f_equal. set_solver.
  - rewrite extract_item_cases. destruct (aborts item); [done|]. cbn.
    rewrite IH. destruct (existsb aborts items); [done|]. f_equal.
    destruct (key_of item); cbn; set_solver.
Qed.

Lemma existsb_Permutation {A} (f : A → bool) (l l' : list A) :
  l ≡ₚ l' → existsb f l = existsb f l'.
Proof.
  induction 1 as [|x l l' _ IH|x y l|l l' l'' _ IH1 _ IH2]; simpl.
  - done.
  - by rewrite IH.
  - by destruct (f x), (f y).
  - congruence.
Qed.

Lemma extract_loop_Permutation acc items items' :
  items ≡ₚ items' → extract_loop acc items = extract_loop acc items'.
Proof.
  intros Hperm. rewrite !extract_loop_cases.
  rewrite (existsb_Permutation _ _ _ Hperm).
  destruct (existsb aborts items'); [done|]. f_equal. f_equal.
  apply list_to_set_perm_L. by rewrite Hperm.
Qed.

Lemma aborts_true item :
  aborts item = true ↔
  username_of item = Raise TypeError ∨
  ∃ v, username_of item = Ok v ∧ hash_key v = None.
Proof.
  unfold aborts, extract_item, set_add.
  destruct (username_of item) as [v|e] eqn:Hpath; cbn.
  - destruct (hash_key v) eqn:Hkey; split; try done.
    + intros [?|(v' & [= <-] & ?)]; congruence.
    + eauto.
  - apply username_of_raises in Hpath as [-> | [-> | ->]]; split;
      try done; try (intros [?|(? & ? & ?)]; done). auto.
Qed.

End ExtractionMore.

(** X1. The extraction does not depend on the order of the records: two
    documents whose records are a rearrangement of each other give the same
    outcome, the same set or the same exception, whether the records are the
    document itself or sit under a (non-empty) key of it. *)
Theorem extract_order_independent (items items' : list json)
    (key : str) (fields fields' : list (str * json)) :
  items ≡ₚ items' →
  key ≠ [] →
  dict_lookup fields key = Some (JList items) →
  dict_lookup fields' key = Some (JList items') →
  _extract_usernames (JList items) None
    = _extract_usernames (JList items') None ∧
  _extract_usernames (JDict fields) (Some key)
    = _extract_usernames (JDict fields') (Some key).
Proof.
  intros Hperm Hkey Hfield Hfield'. unfold _extract_usernames. split.
  - cbn. by apply extract_loop_Permutation.
  - destruct key as [|c key]; [done|]. cbn.
    rewrite Hfield, Hfield'. cbn. by apply extract_loop_Permutation.
Qed.

Lemma extract_order_independent_example :
  let items := [record "a"; JInt 3; record "b"] in
  let items' := [JInt 3; record "a"; record "b"] in
  _extract_usernames (JList items) None
    = _extract_usernames (JList items') None ∧
  _extract_usernames (JDict [(relationships_following, JList items)])
                     (Some relationships_following)
    = _extract_usernames (JDict [(relationships_following, JList items')])
                         (Some relationships_following).
Proof.
  intros items items'.
  apply (extract_order_independent items items' relationships_following).
  - apply Permutation_swap.
  - discriminate.
  - reflexivity.
  - reflexivity.
Defined.

(** X2. Whatever the document and the key, the only exceptions that leave
    [_extract_usernames] are [TypeError] and [AttributeError]: a [KeyError]
    or an [IndexError] of a record never reaches the caller. *)
Theorem extract_escaping_exceptions (data : json) (key : option str)
    (e : exn) :
  _extract_usernames data key = Raise e →
  e = TypeError ∨ e = AttributeError.
Proof. apply extract_usernames_raises. Qed.

Lemma extract_escaping_exceptions_example :
  _extract_usernames (JList [record "a"; JNull]) None = Raise TypeError ∧
  (TypeError = TypeError ∨ TypeError = AttributeError).
Proof.
  assert (_extract_usernames (JList [record "a"; JNull]) None
          = Raise TypeError) as Hrun by (vm_compute; reflexivity).
  split; [exact Hrun|].
  exact (extract_escaping_exceptions _ _ _ Hrun).
Defined.

(** X3. One item whose path runs into a value that cannot be subscripted
    that way, or ends at a list or an object, stops the whole extraction
    with [TypeError], whatever the other items are and wherever it stands. *)
Theorem extract_aborts_on_type_error (items : list json) (item : json) :
  item ∈ items →
  (username_of item = Raise TypeError ∨
   ∃ v, username_of item = Ok v ∧ hash_key v = None) →
  _extract_usernames (JList items) None = Raise TypeError.
Proof.
  intros Hin Hbad. unfold _extract_usernames. cbn.
  rewrite extract_loop_cases.
  assert (existsb aborts items = true) as ->; [|done].
  apply existsb_exists. exists item. split.
  - by apply list_elem_of_In.
  - by apply aborts_true.
Qed.

Lemma extract_aborts_on_type_error_example :
  _extract_usernames
    (JList [record "a";
            JDict [(lit "string_list_data", JNull)];
            record "b"]) None
  = Raise TypeError.
Proof.
  apply (extract_aborts_on_type_error _
           (JDict [(lit "string_list_data", JNull)])).
  - apply list_elem_of_In. simpl. auto.
  - left. reflexivity.
Defined.

(** X4. A set of usernames with anything in it comes from a document that
    is a list when no key is given: an object, a string, a number, a boolean
    or null yields the empty set or an exception. *)
Theorem extract_needs_a_list (data : json) (usernames : gset hashable) :
  _extract_usernames data None = Ok usernames →
  usernames ≠ ∅ →
  ∃ items, data = JList items.
Proof.
  unfold _extract_usernames. cbn.
  destruct data as [| | |s|items|fields]; cbn; try done.
  - destruct s as [|c s]; cbn; [by intros [= <-]|done].
  - eauto.
  - destruct fields as [|[k v] fields]; cbn; [by intros [= <-]|done].
Qed.

Lemma extract_needs_a_list_example :
  ∃ items, JList [record "a"] = JList items.
Proof.
  apply (extract_needs_a_list _ {[HStr (lit "a")]}).
  - vm_compute. reflexivity.
  - vm_compute. discriminate.
Defined.

(** X5. With a key that is not empty, [AttributeError] is raised exactly
    when the document is not an object. *)
Theorem extract_keyed_needs_an_object (data : json) (key : str) :
  key ≠ [] →
  (_extract_usernames data (Some key) = Raise AttributeError ↔
   ∀ fields, data ≠ JDict fields).
Proof.
  intros Hkey. destruct key as [|c key]; [done|].
  unfold _extract_usernames. cbn. split.
  - intros Hrun fields ->. cbn in Hrun.
    apply bind_raise in Hrun as [Hiter|(l & _ & Hloop)].
    + by destruct (default _ _).
    + by apply extract_loop_raises in Hloop.
  - intros Hshape. destruct data; try done. by edestruct Hshape.
Qed.

Lemma extract_keyed_needs_an_object_example :
  _extract_usernames (JList [record "a"]) (Some relationships_following)
    = Raise AttributeError.
Proof.
  apply (extract_keyed_needs_an_object (JList [record "a"])
           relationships_following); discriminate.
Defined.

(** X6. The set never has more elements than the document has items. *)
Theorem extract_size_bound (items : list json) (usernames : gset hashable) :
  _extract_usernames (JList items) None = Ok usernames →
  size usernames ≤ length items.
Proof.
  unfold _extract_usernames. cbn. rewrite extract_loop_cases.
  destruct (existsb aborts items); [done|]. intros [= <-].
  replace (list_to_set (omap key_of items) ∪ ∅)
    with (list_to_set (C:=gset hashable) (omap key_of items)) by set_solver.
  clear. induction items as [|item items IH]; cbn.
  - by rewrite size_empty.
  - destruct (key_of item) as [a|]; cbn; [|lia].
    rewrite size_union_alt, size_singleton.
    assert (size (list_to_set (C:=gset hashable) (omap key_of items) ∖ {[a]})
            ≤ size (list_to_set (C:=gset hashable) (omap key_of items)))
      by (apply subseteq_size; set_solver).
    lia.
Qed.

Lemma extract_size_bound_example :
  size ({[HStr (lit "a")]} : gset hashable) ≤ 3.
Proof.
  apply (extract_size_bound [record "a"; JDict []; record "a"]).
  vm_compute. reflexivity.
Defined.

(** * Further properties of the analyzer *)

(** A result comes from two decoded documents and two extractions. *)
Lemma analyze_ok_inv (fs : filesystem) (followers_file following_file : str)
    (not_following_back fans : gset hashable) :
  analyze_instagram_data fs followers_file following_file
    = Ok (not_following_back, fans) →
  ∃ followers_data following_data followers following,
    fs followers_file = decoded followers_data ∧
    fs following_file = decoded following_data ∧
    _extract_usernames followers_data None = Ok followers ∧
    _extract_usernames following_data (Some relationships_following)
      = Ok following ∧
    not_following_back = following ∖ followers ∧
    fans = followers ∖ following.
Proof.
  rewrite analyze_load. unfold decoded.
  destruct (fs followers_file) as [| | |[| | |followers_data]]; try done.
  destruct (fs following_file) as [| | |[| | |following_data]]; try done.
  cbn.
  intros (followers & Hfollowers & (following & Hfollowing & [= <- <-])
            %bind_ok)%bind_ok.
  by exists followers_data, following_data, followers, following.
Qed.

(** X7. Nobody is in both lists of a result: the accounts that do not
    follow back and the fans are disjoint. *)
Theorem analyze_lists_disjoint (fs : filesystem)
    (followers_file following_file : str)
    (not_following_back fans : gset hashable) :
  analyze_instagram_data fs followers_file following_file
    = Ok (not_following_back, fans) →
  not_following_back ∩ fans = ∅.
Proof.
  intros (_ & _ & followers & following & _ & _ & _ & _ & -> & ->)
    %analyze_ok_inv.
  set_solver.
Qed.

Lemma analyze_lists_disjoint_example :
  ({[HStr (lit "d")]} : gset hashable) ∩ {[HStr (lit "a")]} = ∅.
Proof.
  apply (analyze_lists_disjoint
           (two_files
              (decoded (JList [record "a"; record "b"; record "c"]))
              (decoded (JDict [(relationships_following,
                                JList [record "b"; record "c";
                                       record "d"])])))
           (lit "followers_1.json") (lit "following.json")).
  vm_compute. reflexivity.
Defined.

(** X8. No [KeyError], [IndexError] or [JSONDecodeError] ever leaves
    [analyze_instagram_data]: the lookups of the records are caught in the
    loop, and the decoder's exception is replaced by a [ValueError]. *)
Theorem analyze_never_leaks_lookup_errors (fs : filesystem)
    (followers_file following_file : str) (e : exn) :
  analyze_instagram_data fs followers_file following_file = Raise e →
  e ≠ KeyError ∧ e ≠ IndexError ∧ e ≠ JSONDecodeError.
Proof.
  rewrite analyze_load.
  destruct (read_json (fs followers_file)) as [followers_data|e1] eqn:Hp.
  - destruct (read_json (fs following_file)) as [following_data|e2] eqn:Hq.
    + by intros [-> | ->]%differences_raise.
    + apply read_json_raises in Hq. intros Heq. simplify_eq.
      set_unfold in Hq. destruct_or! Hq; rewrite Hq; by split_and!.
  - apply read_json_raises in Hp. intros Heq. simplify_eq.
    set_unfold in Hp. destruct_or! Hp; rewrite Hp; by split_and!.
Qed.

Lemma analyze_never_leaks_lookup_errors_example :
  ValueError ≠ KeyError ∧ ValueError ≠ IndexError ∧
  ValueError ≠ JSONDecodeError.
Proof.
  apply (analyze_never_leaks_lookup_errors
           (two_files (Contents Garbage) (decoded (JDict [])))
           (lit "followers_1.json") (lit "following.json")).
  vm_compute. reflexivity.
Defined.

(** X9. Giving the same file for both roles never finds anybody: when the
    analyzer returns at all, both lists are empty. *)
Theorem analyze_same_file (fs : filesystem) (file : str)
    (not_following_back fans : gset hashable) :
  analyze_instagram_data fs file file = Ok (not_following_back, fans) →
  not_following_back = ∅ ∧ fans = ∅.
Proof.
  intros (followers_data & following_data & followers & following &
          Hp & Hq & Hfollowers & Hfollowing & -> & ->)%analyze_ok_inv.
  rewrite Hp in Hq. injection Hq as <-.
  destruct followers_data as [| | | | |fields]; try done.
  destruct fields as [|[k v] fields]; [|done].
  vm_compute in Hfollowers, Hfollowing.
  injection Hfollowers as <-. injection Hfollowing as <-.
  split; set_solver.
Qed.

Lemma analyze_same_file_example :
  (∅ : gset hashable) = ∅ ∧ (∅ : gset hashable) = ∅.
Proof.
  apply (analyze_same_file
           (two_files (decoded (JDict [])) NoSuchFile)
           (lit "followers_1.json")).
  vm_compute. reflexivity.
Defined.

(** X10. The result does not depend on the order of the records within each
    document. *)
Theorem analyze_order_independent (fs fs' : filesystem)
    (followers_file following_file : str)
    (followers_records followers_records' : list json)
    (following_records following_records' : list json)
    (fields fields' : list (str * json)) :
  fs followers_file = decoded (JList followers_records) →
  fs' followers_file = decoded (JList followers_records') →
  fs following_file = decoded (JDict fields) →
  fs' following_file = decoded (JDict fields') →
  dict_lookup fields relationships_following
    = Some (JList following_records) →
  dict_lookup fields' relationships_following
    = Some (JList following_records') →
  followers_records ≡ₚ followers_records' →
  following_records ≡ₚ following_records' →
  analyze_instagram_data fs followers_file following_file
    = analyze_instagram_data fs' followers_file following_file.
Proof.
  intros Hp Hp' Hq Hq' Hfield Hfield' Hfollowers Hfollowing.
  rewrite (analyze_decoded _ _ _ _ _ Hp Hq),
    (analyze_decoded _ _ _ _ _ Hp' Hq').
  rewrite !extract_following_fields, Hfield, Hfield'.
  unfold _extract_usernames. cbn.
  rewrite (extract_loop_Permutation _ _ _ Hfollowers).
  destruct (extract_loop ∅ followers_records'); cbn; [|done].
  by rewrite (extract_loop_Permutation _ _ _ Hfollowing).
Qed.

Lemma analyze_order_independent_example :
  analyze_instagram_data
    (two_files
       (decoded (JList [record "a"; record "b"]))
       (decoded (JDict [(relationships_following,
                         JList [record "b"; record "c"])])))
    (lit "followers_1.json") (lit "following.json")
  = analyze_instagram_data
      (two_files
         (decoded (JList [record "b"; record "a"]))
         (decoded (JDict [(relationships_following,
                           JList [record "c"; record "b"])])))
      (lit "followers_1.json") (lit "following.json").
Proof.
  apply (analyze_order_independent _ _ _ _
           [record "a"; record "b"] [record "b"; record "a"]
           [record "b"; record "c"] [record "c"; record "b"]
           [(relationships_following, JList [record "b"; record "c"])]
           [(relationships_following, JList [record "c"; record "b"])]);
    try reflexivity; apply Permutation_swap.
Defined.

(** * Further properties of the renderer *)

Section LayoutMore.
Context {F : Type} `{!Arith F}.

Implicit Types (pdf : FPDF.t F) (st : @loop_state F) (cw : F).
Implicit Types (user title : str) (users : list str) (color : Z * Z * Z).

(** One iteration: the geometry stays, the page number stays or grows by
    one, the start of the grid stays or becomes the top margin, and the one
    cell drawn is a cell of the grid in one of the three columns. *)
Lemma loop_body_step cw pdf (current_y : F) (idx : nat) user :
  ∃ pdf' current_y' idx' col row,
    loop_body cw (pdf, current_y, idx) user = (pdf', current_y', S idx') ∧
    geometry pdf' = geometry pdf ∧
    FPDF.out pdf' =
      FPDF.out pdf ++ [grid_cell pdf (FPDF.page pdf') cw current_y' col row
                                 user] ∧
    col < num_cols ∧
    (row_exceeds pdf current_y (idx / num_cols) = false ∧
       FPDF.page pdf' = FPDF.page pdf ∧ current_y' = current_y ∧
       idx' = idx ∧ col = idx mod num_cols ∧ row = idx / num_cols
     ∨
     row_exceeds pdf current_y (idx / num_cols) = true ∧
       FPDF.page pdf' = S (FPDF.page pdf) ∧
       current_y' = FPDF.t_margin pdf ∧ idx' = 0 ∧ col = 0 ∧ row = 0).
Proof.
  unfold loop_body, next_cell, row_exceeds, grid_cell.
  destruct (fgt _ _) eqn:Hexceeds.
  - eexists _, _, 0, 0, 0. split; [reflexivity|].
    split_and!; [reflexivity|reflexivity|unfold num_cols; lia|].
    right. by split_and!.
  - eexists _, _, idx, (idx mod num_cols), (idx / num_cols).
    split; [by rewrite Nat.add_1_r|].
    split_and!; [reflexivity|reflexivity| |].
    + by apply Nat.mod_upper_bound.
    + left. by split_and!.
Qed.

Lemma grid_cell_geometry pdf pdf' (pg : nat) cw (base : F) (col row : nat)
    user :
  geometry pdf' = geometry pdf →
  grid_cell pdf' pg cw base col row user
    = grid_cell pdf pg cw base col row user.
Proof.
  intros (_ & _ & Hl & _)%geometry_fields. unfold grid_cell. by rewrite Hl.
Qed.

Lemma row_exceeds_geometry pdf pdf' (base : F) (row : nat) :
  geometry pdf' = geometry pdf →
  row_exceeds pdf' base row = row_exceeds pdf base row.
Proof.
  intros (_ & Hh & _ & _ & _ & Hb)%geometry_fields. unfold row_exceeds.
  by rewrite Hh, Hb.
Qed.

(** The loop as a whole: what every run keeps. *)
Lemma loop_invariant cw users pdf (current_y : F) (idx : nat) :
  ∃ pdf' current_y' idx' cells,
    foldl (loop_body cw) (pdf, current_y, idx) users
      = (pdf', current_y', idx') ∧
    geometry pdf' = geometry pdf ∧
    FPDF.out pdf' = FPDF.out pdf ++ cells ∧
    length cells = length users ∧
    FPDF.page pdf ≤ FPDF.page pdf' ≤ FPDF.page pdf + length users ∧
    Forall (λ d, ∃ pg col row base user,
              col < num_cols ∧
              (base = current_y ∨ base = FPDF.t_margin pdf) ∧
              d = grid_cell pdf pg cw base col row user) cells.
Proof.
  revert pdf current_y idx.
  induction users as [|user users IH]; intros pdf current_y idx.
  - exists pdf, current_y, idx, []. cbn. rewrite app_nil_r.
    split_and!; try done; lia.
  - destruct (loop_body_step cw pdf current_y idx user)
      as (pdf1 & cy1 & idx1 & col & row & Hstep & Hgeo & Hout & Hcol & Hcase).
    destruct (IH pdf1 cy1 (S idx1))
      as (pdf2 & cy2 & idx2 & cells & Hrun & Hgeo2 & Hout2 & Hlen & Hpage
          & Hcells).
    pose proof (geometry_fields _ _ Hgeo) as (_ & _ & _ & _ & Ht & _).
    assert (cy1 = current_y ∨ cy1 = FPDF.t_margin pdf) as Hbase
      by (destruct Hcase as [(_ & _ & -> & _)|(_ & _ & -> & _)]; auto).
    exists pdf2, cy2, idx2,
      (grid_cell pdf (FPDF.page pdf1) cw cy1 col row user :: cells).
    cbn [foldl]. rewrite Hstep, Hrun, Hout2, Hout, <- app_assoc.
    split_and!; try done.
    + congruence.
    + cbn. by rewrite Hlen.
    + destruct Hcase as [(_ & Hpg & _)|(_ & Hpg & _)]; rewrite Hpg in Hpage;
        lia.
    + destruct Hcase as [(_ & Hpg & _)|(_ & Hpg & _)]; rewrite Hpg in Hpage;
        cbn; lia.
    + constructor.
      * by exists (FPDF.page pdf1), col, row, cy1, user.
      * eapply Forall_impl; [exact Hcells|]. cbn.
        intros d (pg & c & r & base & u & ? & Hb & ->).
        exists pg, c, r, base, u. split_and!; [done| |].
        -- rewrite Ht in Hb. destruct Hb as [-> | ->]; auto.
        -- by apply grid_cell_geometry.
Qed.

(** The loop on one page: where no row of the run fails the test, no page
    is opened and entry [i] of the run goes to column [(idx + i) mod 3] of
    row [(idx + i) / 3]. *)
Lemma loop_single_page cw users pdf (current_y : F) (idx : nat) :
  (∀ i, i < length users →
        row_exceeds pdf current_y ((idx + i) / num_cols) = false) →
  ∃ pdf',
    foldl (loop_body cw) (pdf, current_y, idx) users
      = (pdf', current_y, idx + length users) ∧
    geometry pdf' = geometry pdf ∧
    FPDF.page pdf' = FPDF.page pdf ∧
    FPDF.out pdf' =
      FPDF.out pdf ++
      imap (λ i user,
              grid_cell pdf (FPDF.page pdf) cw current_y
                        ((idx + i) mod num_cols) ((idx + i) / num_cols)
                        user) users.
Proof.
  revert pdf idx.
  induction users as [|user users IH]; intros pdf idx Hfits.
  - exists pdf. cbn. rewrite app_nil_r, Nat.add_0_r. done.
  - destruct (loop_body_step cw pdf current_y idx user)
      as (pdf1 & cy1 & idx1 & col & row & Hstep & Hgeo & Hout & _ & Hcase).
    pose proof (Hfits 0 ltac:(cbn; lia)) as Hfirst.
    rewrite Nat.add_0_r in Hfirst.
    destruct Hcase as [(_ & Hpg & -> & -> & -> & ->)|(Hbreak & _)];
      [|congruence].
    destruct (IH pdf1 (S idx)) as (pdf2 & Hrun & Hgeo2 & Hpg2 & Hout2).
    { intros i Hi. rewrite (row_exceeds_geometry _ _ _ _ Hgeo).
      replace (S idx + i) with (idx + S i) by lia. apply Hfits. cbn. lia. }
    exists pdf2. cbn [foldl]. rewrite Hstep, Hrun, Hout2, Hout, <- app_assoc.
    split_and!.
    + f_equal. cbn. lia.
    + congruence.
    + congruence.
    + f_equal. cbn [imap app]. rewrite Nat.add_0_r, Hpg. f_equal.
      apply imap_ext. intros i u _. unfold compose.
      replace (idx + S i) with (S idx + i) by lia.
      by apply grid_cell_geometry.
Qed.

Lemma draw_title_geometry pdf title (user_list : gset str) color :
  geometry (draw_title pdf title user_list color) = geometry pdf.
Proof. reflexivity. Qed.

End LayoutMore.

(** X11. A call never changes the page geometry: width, height and all
    four margins are after it what they were before. *)
Theorem draw_list_keeps_geometry {F : Type} `{!Arith F}
    (pdf : FPDF.t F) (title : str) (user_list : gset str)
    (color : Z * Z * Z) :
  geometry (draw_list_in_columns pdf title user_list color) = geometry pdf.
Proof.
  destruct (decide (user_list = ∅)) as [->|Hne].
  - rewrite draw_list_empty. unfold FPDF.cell. by destruct (decide _).
  - rewrite draw_list_nonempty by done.
    set (pdf1 := draw_title pdf title user_list color).
    destruct (loop_invariant (column_width pdf1)
                (sorted (elements user_list)) pdf1 (FPDF.y pdf1) 0)
      as (pdf2 & cy & idx & cells & -> & Hgeo & _).
    cbn [fst]. rewrite <- (draw_title_geometry pdf title user_list color).
    fold pdf1. by rewrite <- Hgeo.
Qed.

(** X12. With the writer's page break, a call never goes back a page and
    opens at most one page for the title line, one for the "None." line, and
    two for an entry (one by the test of the loop, one by the writer). *)
Theorem draw_list_pages {F : Type} `{!Arith F}
    (pdf : FPDF.t F) (title : str) (user_list : gset str)
    (color : Z * Z * Z) :
  let after := Paged.draw_list_in_columns pdf title user_list color in
  FPDF.page pdf ≤ FPDF.page after ≤
    FPDF.page pdf + 1 +
    (if decide (user_list = ∅) then 1 else 2 * size user_list).
Proof.
  intros after. subst after.
  pose proof (paged_draw_title_spec pdf title user_list color) as Htitle.
  cbv zeta in Htitle.
  assert (FPDF.page pdf
          ≤ FPDF.page (Paged.draw_title pdf title user_list color)
          ≤ FPDF.page pdf + 1) as Hpage1.
  { destruct (will_page_break pdf _); destruct Htitle as (_ & -> & _); lia. }
  clear Htitle.
  destruct (decide (user_list = ∅)) as [->|Hne].
  - rewrite paged_draw_list_empty.
    pose proof (paged_cell_spec (Paged.draw_title pdf title ∅ color)
                  (of_int 0) (of_int 7) (lit "  None.") 1) as Hnone.
    cbv zeta in Hnone.
    destruct (will_page_break (Paged.draw_title _ _ _ _) _);
      destruct Hnone as (_ & -> & _); lia.
  - rewrite paged_draw_list_nonempty by done.
    set (pdf1 := Paged.draw_title pdf title user_list color) in *.
    destruct (paged_loop_invariant (column_width pdf1)
                (sorted (elements user_list)) pdf1 (FPDF.y pdf1) 0)
      as (pdf2 & cy & idx & cells & -> & _ & _ & _ & Hpage & _).
    assert (length (sorted (elements user_list)) = size user_list) as Hlen.
    { unfold sorted. by rewrite merge_sort_Permutation. }
    rewrite Hlen in Hpage. cbn [fst FPDF.set_y FPDF.page]. lia.
Qed.

(** X13. A list that fits below its title stays on the page: where none of
    the rows from 0 to the last one fails the test of the loop, no page is
    opened, and entry [i] of the sorted list is drawn in column [i mod 3]
    and row [i / 3] of the grid that starts 10 units below the title. *)
Theorem draw_list_single_page {F : Type} `{!Arith F}
    (pdf : FPDF.t F) (title : str) (user_list : gset str)
    (color : Z * Z * Z) :
  user_list ≠ ∅ →
  let start_y := fadd (FPDF.y pdf) (of_int 10) in
  (∀ row, row ≤ (size user_list - 1) / num_cols →
          row_exceeds pdf start_y row = false) →
  let after := draw_list_in_columns pdf title user_list color in
  FPDF.page after = FPDF.page pdf ∧
  FPDF.out after =
    FPDF.out pdf ++
    [FPDF.Ellipse (FPDF.page pdf) (FPDF.x pdf)
       (fadd (FPDF.y pdf) (fdiv (of_int 7) (of_int 2)))
       (of_int 3) (of_int 3);
     FPDF.Cell (FPDF.page pdf) (fadd (FPDF.x pdf) (of_int 5)) (FPDF.y pdf)
       (of_int 0) (of_int 10) (title_text title user_list)] ++
    imap (λ i user,
            grid_cell pdf (FPDF.page pdf) (column_width pdf) start_y
                      (i mod num_cols) (i / num_cols) user)
         (sorted (elements user_list)).
Proof.
  intros Hne start_y Hfits after. subst after.
  rewrite draw_list_nonempty by done.
  set (pdf1 := draw_title pdf title user_list color).
  destruct (draw_title_spec pdf title user_list color)
    as (Hout & Hpg & _ & Hy & _).
  fold pdf1 in Hout, Hpg, Hy.
  assert (geometry pdf1 = geometry pdf) as Hgeo
    by apply draw_title_geometry.
  assert (length (sorted (elements user_list)) = size user_list) as Hlen.
  { unfold sorted. by rewrite merge_sort_Permutation. }
  destruct (loop_single_page (column_width pdf1)
              (sorted (elements user_list)) pdf1 (FPDF.y pdf1) 0)
    as (pdf2 & -> & _ & Hpg2 & Hout2).
  { intros i Hi. rewrite (row_exceeds_geometry _ _ _ _ Hgeo), Hy.
    apply Hfits. rewrite Hlen in Hi. change (0 + i) with i.
    apply Nat.Div0.div_le_mono. lia. }
  cbn [fst FPDF.set_y FPDF.page FPDF.out].
  rewrite Hpg2, Hout2, Hout, Hpg, Hy, <- app_assoc. split; [done|].
  reflexivity.
Qed.

(** Five names from height 40: two rows on page 1. *)
Lemma draw_list_single_page_example :
  let user_list := names ["dora"; "bob"; "alice"; "carol"; "eve"] in
  let after := draw_list_in_columns (a4 40) (lit "Fans") user_list red in
  FPDF.page after = 1 ∧
  FPDF.out after =
    FPDF.out (a4 40) ++
    [FPDF.Ellipse 1 10%Q (fadd 40%Q (fdiv (of_int 7) (of_int 2)))
       (of_int 3) (of_int 3);
     FPDF.Cell 1 (fadd 10%Q (of_int 5)) 40%Q (of_int 0) (of_int 10)
       (title_text (lit "Fans") user_list)] ++
    imap (λ i user,
            grid_cell (a4 40) 1 (column_width (a4 40))
                      (fadd 40%Q (of_int 10))
                      (i mod num_cols) (i / num_cols) user)
         (sorted (elements user_list)).
Proof.
  intros user_list after.
  apply (draw_list_single_page (a4 40) (lit "Fans") user_list red).
  - vm_compute. discriminate.
  - intros row Hrow.
    assert (row ≤ 1) as Hle by (vm_compute in Hrow; exact Hrow).
    destruct row as [|[|row]]; [vm_compute; reflexivity..|lia].
Defined.

(** X14. Encoding to Latin-1 with replacement and decoding again gives the
    string back exactly when all its characters are Latin-1 (at most
    U+00FF). *)
Theorem latin1_round_trip (s : str) :
  decode_latin1 (encode_latin1_replace s) = s ↔
  Forall (λ c, (c ≤ 255)%N) s.
Proof. apply encode_decode_latin1. Qed.

(** X15. The text handed to the writer for an entry is always Latin-1, so
    that sanitizing it once more changes nothing. *)
Theorem safe_user_is_latin1 (user : str) :
  Forall (λ c, (c ≤ 255)%N) (safe_user user) ∧
  sanitize (safe_user user) = safe_user user.
Proof.
  assert (∀ s, Forall (λ c, (c ≤ 255)%N) (sanitize s)) as Hlatin.
  { intros s. unfold sanitize, decode_latin1, encode_latin1_replace.
    apply Forall_fmap, Forall_true. intros c. cbn.
    destruct (N.leb_spec c 255); lia. }
  split; [apply Hlatin|]. by apply encode_decode_latin1, Hlatin.
Qed.

(** X16. Two names made of Latin-1 characters only get the same text only
    if they are the same name. *)
Theorem safe_user_injective_on_latin1 (user user' : str) :
  Forall (λ c, (c ≤ 255)%N) user →
  Forall (λ c, (c ≤ 255)%N) user' →
  safe_user user = safe_user user' →
  user = user'.
Proof.
  intros Hu Hu'. unfold safe_user, sanitize, decode_latin1,
    encode_latin1_replace. rewrite !fmap_app.
  intros Heq%app_inv_head.
  apply encode_decode_latin1 in Hu, Hu'.
  unfold decode_latin1, encode_latin1_replace in Hu, Hu'. congruence.
Qed.

Lemma safe_user_injective_on_latin1_example :
  lit "anna" = lit "anna".
Proof.
  apply safe_user_injective_on_latin1.
  - repeat constructor; vm_compute; discriminate.
  - repeat constructor; vm_compute; discriminate.
  - reflexivity.
Defined.

(** Names beyond Latin-1 can get the same text. *)
Example safe_user_collision :
  safe_user [20013%N] = safe_user [25991%N] ∧ [20013%N] ≠ [25991%N].
Proof. split; [reflexivity|discriminate]. Qed.

(** X17. The order in which the set hands out its elements does not matter:
    every arrangement of the elements is sorted to the same list. *)
Theorem sorted_any_arrangement (user_list : gset str) (l : list str) :
  l ≡ₚ elements user_list →
  sorted l = sorted (elements user_list).
Proof.
  intros Hperm. unfold sorted.
  apply (StronglySorted_unique str_le).
  - apply StronglySorted_merge_sort; apply _.
  - apply StronglySorted_merge_sort; apply _.
  - by rewrite !merge_sort_Permutation.
Qed.

Lemma sorted_any_arrangement_example :
  sorted (lit <$> ["b"; "c"; "a"])
  = sorted (elements (names ["a"; "b"; "c"])).
Proof.
  apply sorted_any_arrangement.
  apply NoDup_Permutation.
  - repeat constructor; set_solver.
  - apply NoDup_elements.
  - intros u. rewrite elem_of_elements. unfold names. set_solver.
Defined.

(** X18. The two lists of the report one after the other, with the
    writer's page break: read back, the report holds the first title and
    one text per entry of the first list in the ascending order of the
    entries, then the second title and the texts of the second list in the
    same way. The text of an entry is "- " and the entry with every
    character beyond Latin-1 replaced by "?"; an empty list is replaced by
    its "None." line. *)
Theorem both_lists_read_back {F : Type} `{!Arith F} (pdf : FPDF.t F)
    (not_following_back fans : gset str) :
  let block title (user_list : gset str) :=
    title_text title user_list ::
    (if decide (user_list = ∅) then [lit "  None."]
     else (λ u, lit "- " ++ sanitize u) <$> sorted (elements user_list)) in
  placed_texts pdf (Paged.draw_both_lists pdf not_following_back fans) =
    block (lit "People You Follow Who Don't Follow Back")
          not_following_back ++
    block (lit "People You Don't Follow Them Back") fans.
Proof.
  intros block. unfold Paged.draw_both_lists, placed_texts.
  set (title1 := lit "People You Follow Who Don't Follow Back").
  set (title2 := lit "People You Don't Follow Them Back").
  destruct (paged_draw_list_texts pdf title1 not_following_back red)
    as (drawn1 & Hout1 & Htexts1).
  set (pdf1 := Paged.draw_list_in_columns pdf title1 not_following_back red)
    in *.
  destruct (paged_draw_list_texts (ln pdf1 (of_int 8)) title2 fans green)
    as (drawn2 & -> & Htexts2).
  cbn [ln FPDF.set_y FPDF.out]. rewrite Hout1, <- app_assoc, drop_app_length.
  rewrite omap_app, Htexts1, Htexts2. subst block. cbv beta.
  assert (∀ l : list str,
            safe_user <$> l = (λ u, lit "- " ++ sanitize u) <$> l)
    as Htext.
  { intros l. apply list_fmap_ext. intros _ u _. apply safe_user_text. }
  by rewrite !Htext.
Qed.

(** Two followed accounts that do not follow back, no fan. *)
Example both_lists_example :
  placed_texts (a4 40)
    (Paged.draw_both_lists (a4 40) (names ["bob"; "alice"]) ∅)
  = lit <$> ["People You Follow Who Don't Follow Back (2)";
             "- alice"; "- bob";
             "People You Don't Follow Them Back (0)"; "  None."].
Proof. vm_compute. reflexivity. Qed.



(** A title that does not fit at height 268 goes to page 2, and the grid
    starts below it there, at height 20. *)
Example title_moved_to_next_page :
  let after :=
    Paged.draw_list_in_columns (a4 268) (lit "Fans") (names ["a"]) red in
  FPDF.out after =
    [FPDF.Ellipse 1 10%Q (543 # 2)%Q 3%Q 3%Q;
     FPDF.Cell 2 15%Q 10%Q 0%Q 10%Q (lit "Fans (1)");
     FPDF.Cell 2 10%Q 20%Q (190 # 3)%Q 7%Q (lit "- a")] ∧
  FPDF.page after = 2 ∧ FPDF.y after = 34%Q.
Proof. repeat split; vm_compute; reflexivity. Qed.

(** * Properties of [get_path_from_user] *)

Section Strip.
Context (f : N → bool).

Implicit Types (s p q m : str) (c : N).



Lemma lstrip_decompose s :
  ∃ p, s = p ++ lstrip f s ∧ Forall (λ c, f c = true) p ∧
       ∀ c, head (lstrip f s) = Some c → f c = false.
Proof.
  induction s as [|c s (p & Heq & Hp & Hhead)]; cbn.
  - exists []. by split_and!.
  - destruct (f c) eqn:Hc.
    + exists (c :: p). split_and!; [cbn; congruence|by constructor|done].
    + exists []. split_and!; [done|constructor|]. by intros ? [= <-].
Qed.

Lemma rstrip_decompose s :
  ∃ q, s = rstrip f s ++ q ∧ Forall (λ c, f c = true) q ∧
       ∀ c, last (rstrip f s) = Some c → f c = false.
Proof.
  unfold rstrip.
  destruct (lstrip_decompose (reverse s)) as (p & Heq & Hp & Hhead).
  exists (reverse p). split_and!.
  - rewrite <- reverse_app, <- Heq. by rewrite reverse_involutive.
  - by apply Forall_reverse.
  - intros c. rewrite last_reverse. apply Hhead.
Qed.

(** Both ends of a stripped string are characters that the test rejects. *)
Lemma strip_ends s c :
  (head (strip f s) = Some c → f c = false) ∧
  (last (strip f s) = Some c → f c = false).
Proof.
  unfold strip.
  destruct (lstrip_decompose s) as (p & _ & _ & Hhead).
  destruct (rstrip_decompose (lstrip f s)) as (q & Heq & _ & Hlast).
  split; [|apply Hlast].
  intros Hc. apply Hhead. rewrite Heq.
  destruct (rstrip f (lstrip f s)); [done|]. exact Hc.
Qed.


(** Nothing is left exactly when every character passes the test. *)
Lemma strip_nil s : strip f s = [] ↔ Forall (λ c, f c = true) s.
Proof.
  unfold strip.
  destruct (lstrip_decompose s) as (p & Heq & Hp & Hhead).
  destruct (rstrip_decompose (lstrip f s)) as (q & Heq' & Hq & _).
  split.
  - intros Hnil. rewrite Hnil in Heq'. rewrite Heq, Heq'.
    by apply Forall_app.
  - intros Hall. rewrite Heq in Hall. apply Forall_app in Hall as [_ Hrest].
    destruct (lstrip f s) as [|c r]; [done|].
    apply Forall_cons in Hrest as [Hc _].
    specialize (Hhead c eq_refl). congruence.
Qed.

End Strip.


(** X20. The path that [get_path_from_user] returns neither begins nor ends
    with an apostrophe or a double quote. *)
Theorem path_has_no_outer_quotes (c c' : console) (prompt path : str) :
  get_path_from_user c prompt = (Some path, c') →
  ∀ ch, head path = Some ch ∨ last path = Some ch → is_quote ch = false.
Proof.
  unfold get_path_from_user, input. cbn.
  destruct (stdin c) as [|line rest]; [done|]. intros [= <- _] ch.
  pose proof (strip_ends is_quote (strip is_space line) ch) as [Hhead Hlast].
  intros [?|?]; auto.
Qed.

Lemma path_has_no_outer_quotes_example :
  is_quote 47%N = false.
Proof.
  assert (get_path_from_user
            (Console [[32; 39; 47; 97; 32; 98; 39; 32]%N] []) (lit "File:")
          = (Some (lit "/a b"),
             Console [] [lit "File:" ++ [10%N]; lit "> "])) as Hrun
    by (vm_compute; reflexivity).
  exact (path_has_no_outer_quotes _ _ _ _ Hrun 47%N (or_introl eq_refl)).
Defined.



(** X22. The returned path is empty exactly when the line, without the
    white space around it, holds nothing but quote characters. *)
Theorem path_empty (c c' : console) (prompt line path : str)
    (rest : list str) :
  stdin c = line :: rest →
  get_path_from_user c prompt = (Some path, c') →
  (path = [] ↔ Forall (λ ch, is_quote ch = true) (strip is_space line)).
Proof.
  intros Hin. unfold get_path_from_user, input. cbn. rewrite Hin.
  intros [= <- _]. apply strip_nil.
Qed.

Lemma path_empty_example :
  ([] : str) = [] ↔
  Forall (λ ch, is_quote ch = true) (strip is_space [32; 34; 34; 9]%N).
Proof.
  apply (path_empty (Console [[32; 34; 34; 9]%N] [])
           (Console [] [lit "File:" ++ [10%N]; lit "> "])
           (lit "File:") _ [] []).
  - reflexivity.
  - vm_compute. reflexivity.
Defined.

(** White space inside the quotes is not stripped a second time. *)
Example path_keeps_inner_space :
  (get_path_from_user (Console [[39; 32; 97; 32; 39]%N] []) (lit "File:")).1
  = Some [32; 97; 32]%N.
Proof. reflexivity. Qed.
